(** * back64up: glob, base64-encode and serialise a set of files

    A shallow embedding of the TypeScript sources [filesystem.ts],
    [base64.ts] and [error-handling.ts], and the properties of the
    snapshot views, of the path filters, of the error paths and of the
    base64 codec.

    JavaScript strings are modelled as [string] (one [ascii] per code
    unit), a [Buffer] as [list byte], a plain object used as a dictionary
    as a [gmap] of its own properties, and the array held by a [FileSystem]
    as a list that the views receive and hand back, because [asCSV] writes
    into the entries it is given. *)

From Stdlib Require Import Ascii NArith ZArith Bool Lia Permutation.
From Stdlib Require Import Strings.Byte.
From stdpp Require Import base option list gmap strings pretty.

Local Open Scope N_scope.
Local Open Scope stdpp_scope.

(** ** Characters that a string literal cannot spell *)

Definition LF : string := String "010"%char EmptyString.
Definition TAB : string := String "009"%char EmptyString.
Definition dquote : ascii := "034"%char.
Definition DQ : string := String dquote EmptyString.

(** ** The string and array primitives the sources call *)

Module Js.

(** [s.replace(/c/g, by)] for a pattern that is one literal character:
    every occurrence of [c], scanning left to right, becomes [by]. *)
Fixpoint replace_all (c : ascii) (by_ : string) (s : string) : string :=
  match s with
  | EmptyString => EmptyString
  | String a s' =>
      if Ascii.eqb a c then by_ +:+ replace_all c by_ s'
      else String a (replace_all c by_ s')
  end.

(** [arr.join(sep)]: the elements with [sep] between neighbours. *)
Fixpoint join (sep : string) (arr : list string) : string :=
  match arr with
  | [] => EmptyString
  | [x] => x
  | x :: rest => x +:+ sep +:+ join sep rest
  end.

(** Assignment [o[k] = v] on an object created by the literal [{}].
    Its own properties are a finite map.  The one key that does not
    create an own property is [__proto__]: it reaches the accessor
    inherited from [Object.prototype], whose setter ignores a value that
    is neither an object nor [null], and every value stored here is a
    string. *)
Definition set_property (o : gmap string string) (k v : string)
  : gmap string string :=
  if String.eqb k "__proto__" then o else <[k := v]> o.

(** Values that can be thrown or passed to [Error(...)]. *)
Inductive value : Type :=
| Undefined
| Str (s : string)
| Arr (l : list string)
| ErrorObject (name message : string).

(** [String(v)], as [Error(v)] applies it to its argument. *)
Definition ToString (v : value) : string :=
  match v with
  | Undefined => "undefined"
  | Str s => s
  | Arr l => join "," l
  | ErrorObject name message =>
      if String.eqb message "" then name else name +:+ ": " +:+ message
  end.

(** [Error(v)]: a new [Error] whose message is [String(v)], and the
    empty message when [v] is [undefined]. *)
Definition Error (v : value) : value :=
  match v with
  | Undefined => ErrorObject "Error" ""
  | _ => ErrorObject "Error" (ToString v)
  end.

Definition instanceof_Error (v : value) : bool :=
  match v with
  | ErrorObject _ _ => true
  | _ => false
  end.

End Js.

(** ** error-handling.ts *)

(** [wrapError]: the value itself when it is an [Error], else [Error(value)]. *)
Definition wrapError (v : Js.value) : Js.value :=
  if Js.instanceof_Error v then v else Js.Error v.

(** ** filesystem.ts: entries and the serialisation views *)

Definition Filepath : Type := string.
Definition Base64String : Type := string.

(** [type FileEntry = [Filepath, Base64String]]. *)
Definition FileEntry : Type := (Filepath * Base64String)%type.

(** [entry.join(sep)] on the two-element tuple. *)
Definition entry_join (sep : string) (entry : FileEntry) : string :=
  Js.join sep [entry.1; entry.2].

(** The callback of [asCSV]: it assigns the escaped name to [entry[0]] and
    returns the joined row.  The entry is the very object held by the
    array, so the callback yields the row together with the entry as it
    is left. *)
Definition asCSV_entry (entry : FileEntry) : string * FileEntry :=
  let entry' : FileEntry := (Js.replace_all "," "\," entry.1, entry.2) in
  (entry_join "," entry', entry').

(** [asCSV(filesystem)]: the text, and the array as the call leaves it. *)
Definition asCSV (filesystem : list FileEntry) : string * list FileEntry :=
  let rows := map asCSV_entry filesystem in
  (Js.join LF ("filepath,content" :: map fst rows), map snd rows).

(** [asTSV(filesystem)] reads the entries and writes nothing. *)
Definition asTSV (filesystem : list FileEntry) : string * list FileEntry :=
  (Js.join LF (("filepath" +:+ TAB +:+ "content")
                 :: map (entry_join TAB) filesystem),
   filesystem).

(** *** JSON.stringify on an array of string tuples *)

Module JSON.

Definition hex_digit (n : N) : ascii :=
  match n with
  | 0 => "0" | 1 => "1" | 2 => "2" | 3 => "3" | 4 => "4" | 5 => "5"
  | 6 => "6" | 7 => "7" | 8 => "8" | 9 => "9" | 10 => "a" | 11 => "b"
  | 12 => "c" | 13 => "d" | 14 => "e" | _ => "f"
  end%char.

(** One code unit inside a JSON string literal (QuoteJSONString). *)
Definition quote_char (a : ascii) : string :=
  let n := N_of_ascii a in
  if Ascii.eqb a dquote then String "\" DQ
  else if Ascii.eqb a "\" then "\\"
  else if N.eqb n 8 then "\b"
  else if N.eqb n 9 then "\t"
  else if N.eqb n 10 then "\n"
  else if N.eqb n 12 then "\f"
  else if N.eqb n 13 then "\r"
  else if N.ltb n 32 then
    "\u00" +:+ String (hex_digit (n / 16)) (String (hex_digit (n mod 16)) "")
  else String a "".

Fixpoint quote_body (s : string) : string :=
  match s with
  | EmptyString => EmptyString
  | String a s' => quote_char a +:+ quote_body s'
  end.

Definition quote (s : string) : string := DQ +:+ quote_body s +:+ DQ.

(** The values the program serialises: strings and arrays. *)
#[local] Unset Elimination Schemes.
Inductive json : Type :=
| JString (s : string)
| JArray (items : list json).
#[local] Set Elimination Schemes.

Fixpoint stringify (j : json) : string :=
  match j with
  | JString s => quote s
  | JArray items => "[" +:+ Js.join "," (map stringify items) +:+ "]"
  end.

Definition of_entry (entry : FileEntry) : json :=
  JArray [JString entry.1; JString entry.2].

Definition of_files (files : list FileEntry) : json :=
  JArray (map of_entry files).

End JSON.

(** [asJSON: () => JSON.stringify(files)]: [files] is the array of tuples. *)
Definition asJSON (files : list FileEntry) : string * list FileEntry :=
  (JSON.stringify (JSON.of_files files), files).

(** [toMap]: [files.reduce((reduction, [filepath, content]) =>
    { reduction[filepath] = content; return reduction; }, {})]. *)
Definition toMap (files : list FileEntry)
  : gmap string string * list FileEntry :=
  (foldl (λ reduction entry, Js.set_property reduction entry.1 entry.2)
         ∅ files,
   files).

(** The object returned by [FileSystem(files)]: the field and the four
    closures all hold the same array, so one record field is the store. *)
Record FileSystem : Type := mkFileSystem { files : list FileEntry }.

(** ** Promises and the console *)

(** The state of a promise when it is looked at: settled with a value,
    settled with a reason, or never settled. *)
Inductive promise (A : Type) : Type :=
| Fulfilled (a : A)
| Rejected (reason : Js.value)
| Pending.
Arguments Fulfilled {A} a.
Arguments Rejected {A} reason.
Arguments Pending {A}.

(** An [async] body: it appends lines to the console and ends in a promise
    state. *)
Definition Async (A : Type) : Type := list string → promise A * list string.

Global Instance Async_ret : MRet Async :=
  λ A a console, (Fulfilled a, console).

Global Instance Async_bind : MBind Async :=
  λ A B k m console,
    match m console with
    | (Fulfilled a, console') => k a console'
    | (Rejected reason, console') => (Rejected reason, console')
    | (Pending, console') => (Pending, console')
    end.

Definition throw {A} (reason : Js.value) : Async A :=
  λ console, (Rejected reason, console).

(** [await p]: the value of [p], or its reason thrown. *)
Definition await {A} (p : promise A) : Async A :=
  λ console, (p, console).

(** [try { body } catch (err) { handler }] and [promise.catch(handler)]. *)
Definition catch {A} (body : Async A) (handler : Js.value → Async A)
  : Async A :=
  λ console,
    match body console with
    | (Rejected reason, console') => handler reason console'
    | settled => settled
    end.

(** [console.error], [console.info]: one more line on the console. *)
Definition console_error (line : string) : Async unit :=
  λ console, (Fulfilled (), console ++ [line]).
Definition console_info (line : string) : Async unit :=
  λ console, (Fulfilled (), console ++ [line]).

(** Reading a [let] binding.  [None] is a binding whose initialiser has not
    finished: the read throws a [ReferenceError]. *)
Definition read_let (name : string) (binding : option Js.value)
  : Async Js.value :=
  match binding with
  | Some v => mret v
  | None =>
      throw (Js.ErrorObject "ReferenceError"
               ("Cannot access '" +:+ name +:+ "' before initialization"))
  end.

(** [Promise.all(tasks)].  [order] lists the tasks in the order in which
    they settle.  A fulfilled task stores its value in the slot of its own
    index; the first rejection rejects the whole; a task that never settles
    stores nothing.  The result is fulfilled, with the slots in index order,
    once every slot is filled. *)
Definition settle_one {A} (tasks : list (Async A)) (slots : list (option A))
    (i : nat) : Async (list (option A)) :=
  match tasks !! i, slots !! i with
  | Some task, Some None =>
      λ console,
        match task console with
        | (Fulfilled a, console') => (Fulfilled (<[i := Some a]> slots), console')
        | (Rejected reason, console') => (Rejected reason, console')
        | (Pending, _) => (Fulfilled slots, console)
        end
  | _, _ => mret slots
  end.

Fixpoint settle_all {A} (tasks : list (Async A)) (order : list nat)
    (slots : list (option A)) : Async (list (option A)) :=
  match order with
  | [] => mret slots
  | i :: order' =>
      slots' ← settle_one tasks slots i;
      settle_all tasks order' slots'
  end.

Definition Promise_all {A} (order : list nat) (tasks : list (Async A))
  : Async (list A) :=
  slots ← settle_all tasks order (replicate (length tasks) None);
  match mapM id slots with
  | Some values => mret values
  | None => await Pending
  end.

(** ** base64.ts *)

Module Base64.

(** The runtime's base64 codec.  [fs.readFile(path, "base64")] and
    [Buffer.from(text, "base64")] are primitives of the runtime, not code of
    this repository; the two definitions below model them. *)

Definition alphabet : string :=
  "ABCDEFGHIJKLMNOPQRSTUVWXYZabcdefghijklmnopqrstuvwxyz0123456789+/".

Definition base64_char (sextet : N) : ascii :=
  default "A"%char (String.get (N.to_nat sextet) alphabet).

(** A store into a [Uint8Array] keeps the low eight bits. *)
Definition uint8 (n : N) : byte := default x00 (Byte.of_N (N.land n 255)).

Definition sextet1 (b1 : byte) : N := N.shiftr (Byte.to_N b1) 2.
Definition sextet2 (b1 b2 : byte) : N :=
  N.lor (N.shiftl (N.land (Byte.to_N b1) 3) 4) (N.shiftr (Byte.to_N b2) 4).
Definition sextet3 (b2 b3 : byte) : N :=
  N.lor (N.shiftl (N.land (Byte.to_N b2) 15) 2) (N.shiftr (Byte.to_N b3) 6).
Definition sextet4 (b3 : byte) : N := N.land (Byte.to_N b3) 63.

(** Modelled from the spec: the base64 transform applied directly to bytes
    ([encode_inline]), which the runtime performs inside
    [readFile(path, "base64")]: standard alphabet, [=] padding. *)
Fixpoint encode_inline (B : list byte) : string :=
  match B with
  | [] => ""
  | [b1] =>
      String (base64_char (sextet1 b1))
        (String (base64_char (sextet2 b1 x00)) "==")
  | [b1; b2] =>
      String (base64_char (sextet1 b1))
        (String (base64_char (sextet2 b1 b2))
           (String (base64_char (sextet3 b2 x00)) "="))
  | b1 :: b2 :: b3 :: rest =>
      String (base64_char (sextet1 b1))
        (String (base64_char (sextet2 b1 b2))
           (String (base64_char (sextet3 b2 b3))
              (String (base64_char (sextet4 b3)) (encode_inline rest))))
  end.

(** The value of a character in the decoder's table: the standard and the
    URL-safe alphabet are legal, everything else is not. *)
Definition unbase64 (c : ascii) : option N :=
  let n := N_of_ascii c in
  if (65 <=? n) && (n <=? 90) then Some (n - 65)
  else if (97 <=? n) && (n <=? 122) then Some (n - 71)
  else if (48 <=? n) && (n <=? 57) then Some (n + 4)
  else if (n =? 43) || (n =? 45) then Some 62
  else if (n =? 47) || (n =? 95) then Some 63
  else None.

(** The legal characters of the text, up to the first [=]: a character that
    is not legal is skipped, [=] ends the input. *)
Fixpoint sextets (text : string) : list N :=
  match text with
  | EmptyString => []
  | String c text' =>
      if Ascii.eqb c "=" then []
      else match unbase64 c with
           | Some v => v :: sextets text'
           | None => sextets text'
           end
  end.

Definition octet1 (s1 s2 : N) : byte :=
  uint8 (N.lor (N.shiftl (N.land s1 63) 2) (N.shiftr (N.land s2 48) 4)).
Definition octet2 (s2 s3 : N) : byte :=
  uint8 (N.lor (N.shiftl (N.land s2 15) 4) (N.shiftr (N.land s3 60) 2)).
Definition octet3 (s3 s4 : N) : byte :=
  uint8 (N.lor (N.shiftl (N.land s3 3) 6) (N.land s4 63)).

(** Four sextets give three bytes; a last group of three gives two bytes,
    of two gives one, of one gives none. *)
Fixpoint octets (l : list N) : list byte :=
  match l with
  | s1 :: s2 :: s3 :: s4 :: rest =>
      octet1 s1 s2 :: octet2 s2 s3 :: octet3 s3 s4 :: octets rest
  | [s1; s2; s3] => [octet1 s1 s2; octet2 s2 s3]
  | [s1; s2] => [octet1 s1 s2]
  | _ => []
  end.

(** Modelled from the spec: [Buffer.from(text, "base64")], the decoding
    that is the inverse of the transform above and that ignores what is not
    base64 text. *)
Definition Buffer_from_base64 (text : string) : list byte :=
  octets (sextets text).

(** Every byte, for the case analyses on one or two bytes. *)
Definition all_bytes : list byte :=
  map (λ n : nat, uint8 (N.of_nat n)) (seq 0 256).

(** A sextet survives the trip through its character, which is not the
    padding character. *)
Definition sextet_survives (sextet : N) : bool :=
  match unbase64 (base64_char sextet) with
  | Some v => N.eqb v sextet
  | None => false
  end
  && negb (Ascii.eqb (base64_char sextet) "=").

(** [decode: async (base64) => Buffer.from(base64, "base64")]. *)
Definition decode (base64 : string) : promise (list byte) :=
  Fulfilled (Buffer_from_base64 base64).

(** [encode: async (filepath) => readFile(filepath, "base64")], over the
    outcome [readFile] of the read. *)
Definition encode (readFile : string → promise string) (filepath : string)
  : promise string :=
  readFile filepath.

End Base64.

(** ** filesystem.ts: [Base64Filesystem] *)

(** What an [async (filepath) => ...] read returns: [{ contents, filepath }]. *)
Record FileRead : Type := mkFileRead { contents : string; filepath : string }.

Section Base64Filesystem.

(** The world the function runs in: the working directory, what
    [glob(pattern)] settles to, what [readFile(path, "base64")] settles to,
    and the order in which the reads that were started settle. *)
Variable cwd : string.
Variable glob : string → promise (list string).
Variable readFile : string → promise string.
Variable completion : list nat.

(** [filters.reduce((values, filter) => values.filter(filter), fileGlob)]. *)
Definition apply_filters (filters : list (string → bool))
    (fileGlob : list string) : list string :=
  foldl (λ values filter, List.filter filter values) fileGlob filters.

(** The body mapped over [filtered]. *)
Definition read_and_encode (filepath : string) : Async FileRead :=
  contents ← await (Base64.encode readFile filepath);
  console_info ("encoded: " +:+ filepath);;
  mret {| contents := contents; filepath := filepath |}.

Definition Base64Filesystem (globPattern : string)
    (filters : list (string → bool)) : Async FileSystem :=
  catch
    ((* read glob *)
     fileGlob ← catch (await (glob globPattern))
       (λ err,
          console_error
            ("error occurred executing glob pattern '" +:+ globPattern
               +:+ "' on directory " +:+ cwd);;
          (* [fileGlob] is read while its own initialiser is running *)
          fileGlob ← read_let "fileGlob" None;
          throw (wrapError fileGlob));
     (* map all provided filters *)
     let filtered := apply_filters filters fileGlob in
     (* read/encode all files into memory map *)
     let fileReads := map read_and_encode filtered in
     files ← catch (Promise_all completion fileReads)
       (λ err,
          console_error "encountered error reading and encoding files";;
          throw (wrapError err));
     mret (mkFileSystem
             (map (λ r : FileRead, (filepath r, contents r)) files)))
    (λ err,
       console_error "error occurred creating backup file map";;
       throw (wrapError err)).

End Base64Filesystem.

(** ** The slots of [Promise.all] while the reads settle *)

(** What the read of [path] returns when the file holds [content path]. *)
Definition read_of (content : string → string) (path : string) : FileRead :=
  {| contents := content path; filepath := path |}.

(** A slot is filled when its read has stored its value. *)
Definition filled (slot : option (option FileRead)) : Prop :=
  ∃ r, slot = Some (Some r).

(** The slots hold, at every filled index, the read of the path at that
    index. *)
Definition slots_sound (content : string → string) (paths : list string)
    (slots : list (option FileRead)) : Prop :=
  length slots = length paths
  ∧ ∀ i r, slots !! i = Some (Some r) →
      ∃ path, paths !! i = Some path ∧ r = read_of content path.

(** The slots hold, at every filled index, a read of the path at that
    index with the contents its file was read as. *)
Definition slots_read (readFile : string → promise string)
    (paths : list string) (slots : list (option FileRead)) : Prop :=
  length slots = length paths
  ∧ ∀ i r, slots !! i = Some (Some r) →
      paths !! i = Some (filepath r)
      ∧ readFile (filepath r) = Fulfilled (contents r).

(** ** The reading side of the CSV format, as the specification words it *)

Module Csv.

(** The escaped path the specification describes: every literal comma is
    replaced by the two characters backslash, comma. *)
Definition escaped_path (path : string) : string :=
  String.concat ""
    (map (λ a : ascii, if Ascii.eqb a "," then "\," else String a "")
         (String.list_ascii_of_string path)).

(** Splitting a row on its unescaped commas.  A comma is escaped when the
    character before it is a backslash.  [fields escaped row] is the first
    field and the list of the other fields; [escaped] tells whether the
    character before [row] was a backslash. *)
Fixpoint fields (escaped : bool) (row : string) : string * list string :=
  match row with
  | EmptyString => (EmptyString, [])
  | String a row' =>
      if Ascii.eqb a "," && negb escaped then
        (EmptyString, let (f, fs) := fields false row' in f :: fs)
      else
        let (f, fs) := fields (Ascii.eqb a "\") row' in (String a f, fs)
  end.

Definition split (row : string) : list string :=
  let (f, fs) := fields false row in f :: fs.

(** Replacing each escaped sequence backslash, comma by a comma. *)
Fixpoint unescape (field : string) : string :=
  match field with
  | EmptyString => EmptyString
  | String a rest =>
      match rest with
      | String b rest' =>
          if Ascii.eqb a "\" && Ascii.eqb b "," then String "," (unescape rest')
          else String a (unescape rest)
      | EmptyString => String a EmptyString
      end
  end.

(** The path decoded from a row: its first field, unescaped. *)
Definition decode_path (row : string) : string :=
  unescape (hd EmptyString (split row)).

(** Whether a path ends with a backslash ([escaped] for the empty path). *)
Fixpoint ends_with_backslash (escaped : bool) (path : string) : bool :=
  match path with
  | EmptyString => escaped
  | String a path' => ends_with_backslash (Ascii.eqb a "\") path'
  end.

End Csv.

(** The last content stored for a path, reading the entries in order. *)
Definition last_content (path : string) (files : list FileEntry)
  : option string :=
  snd <$> last (List.filter (λ entry : FileEntry, String.eqb entry.1 path) files).

(** ** index.ts: the [backup] command *)

(** [s.endsWith(suffix)]. *)
Definition endsWith (s suffix : string) : bool :=
  String.prefix (String.rev suffix) (String.rev s).

(** [let supportedFormats = <const>["json", "csv", "tsv"]]. *)
Definition supportedFormats : list string := ["json"; "csv"; "tsv"].

(** [isSupportedType(format)]: [typeof format === "string"] and exactly one
    element of [supportedFormats] is [===] to it. *)
Definition isSupportedType (format : Js.value) : bool :=
  match format with
  | Js.Str s =>
      Nat.eqb
        (length (List.filter (λ supported, String.eqb s supported)
                             supportedFormats))
        1
  | _ => false
  end.

(** [Object.keys(filesystem)]: the own properties of the object literal
    that [FileSystem(files)] returns, in the order they are written. *)
Definition Object_keys (filesystem : FileSystem) : list string :=
  ["files"; "asJSON"; "asCSV"; "asTSV"; "toMap"].

(** What the process can see of a run: the console, and the files written
    with the data handed to [writeFile] ([None] is [undefined]). *)
Record World : Type := mkWorld {
  stdio : list string;
  disk : list (string * option string)
}.

(** How a piece of the handler ends: normally, by a throw, by
    [process.exit(code)], or never. *)
Inductive ending (A : Type) : Type :=
| Done (a : A)
| Threw (reason : Js.value)
| Exited (code : nat)
| Never.
Arguments Done {A} a.
Arguments Threw {A} reason.
Arguments Exited {A} code.
Arguments Never {A}.

Definition Proc (A : Type) : Type := World → ending A * World.

Global Instance Proc_ret : MRet Proc := λ A a world, (Done a, world).

Global Instance Proc_bind : MBind Proc :=
  λ A B k m world,
    match m world with
    | (Done a, world') => k a world'
    | (Threw reason, world') => (Threw reason, world')
    | (Exited code, world') => (Exited code, world')
    | (Never, world') => (Never, world')
    end.

Definition proc_throw {A} (reason : Js.value) : Proc A :=
  λ world, (Threw reason, world).

(** [process.exit(code)]. *)
Definition process_exit {A} (code : nat) : Proc A :=
  λ world, (Exited code, world).

Definition proc_catch {A} (body : Proc A) (handler : Js.value → Proc A)
  : Proc A :=
  λ world,
    match body world with
    | (Threw reason, world') => handler reason world'
    | ended => ended
    end.

(** [console.info], [console.warn], [console.error] on a string. *)
Definition console_line (line : string) : Proc unit :=
  λ world, (Done (), {| stdio := stdio world ++ [line]; disk := disk world |}).

(** [await] on an [async] function of filesystem.ts: its console lines go
    to the console of the process. *)
Definition await_async {A} (body : Async A) : Proc A :=
  λ world,
    let (settled, console) := body (stdio world) in
    (match settled with
     | Fulfilled a => Done a
     | Rejected reason => Threw reason
     | Pending => Never
     end,
     {| stdio := console; disk := disk world |}).

Section Backup.

(** The world of [Base64Filesystem], and besides: [path.resolve], what
    [writeFile(path, data, "utf8")] settles to, how [console.error] renders
    a value, and the error that a failed assertion of [assertate] throws. *)
Variable cwd : string.
Variable glob : string → promise (list string).
Variable readFile : string → promise string.
Variable completion : list nat.
Variable resolve : string → string.
Variable writeFile : string → option string → promise unit.
Variable inspect : Js.value → string.
Variable assertion : Js.value.

(** [assertIsString(value)]. *)
Definition assertIsString (v : Js.value) : Proc string :=
  match v with
  | Js.Str s => mret s
  | _ => proc_throw assertion
  end.

(** [assert(condition)]. *)
Definition assert (condition : bool) : Proc unit :=
  if condition then mret () else proc_throw assertion.

(** [await writeFile(absOut, content, "utf8")]: a fulfilled write leaves the
    file on the disk. *)
Definition write_file (absOut : string) (content : option string)
  : Proc unit :=
  λ world,
    match writeFile absOut content with
    | Fulfilled _ =>
        (Done (),
         {| stdio := stdio world; disk := disk world ++ [(absOut, content)] |})
    | Rejected reason => (Threw reason, world)
    | Pending => (Never, world)
    end.

(** The text selected by [format]: [undefined] when it is none of the
    three. *)
Definition select_content (format : string) (filesystem : FileSystem)
  : option string :=
  if String.eqb format "json" then Some (asJSON (files filesystem)).1
  else if String.eqb format "csv" then Some (asCSV (files filesystem)).1
  else if String.eqb format "tsv" then Some (asTSV (files filesystem)).1
  else None.

(** The handler of [backup <pattern> [out-file]], on the three properties
    it takes from [argv]. *)
Definition backup (argv_pattern argv_outFile argv_format : Js.value)
  : Proc unit :=
  pattern ← assertIsString argv_pattern;
  outFile ← assertIsString argv_outFile;
  assert (isSupportedType argv_format);;
  (* [format] is a string from here on *)
  let format := Js.ToString argv_format in
  console_line
    ("backing up all files in '" +:+ cwd +:+ "' matching '" +:+ pattern
       +:+ "' to path '" +:+ outFile +:+ "' in format '" +:+ format
       +:+ "'...");;
  (* warn about extension/format *)
  (if negb (endsWith outFile ("." +:+ format)) then
     console_line
       ("warning: the chosen --out-file '" +:+ outFile
          +:+ "' extension does not match the chosen --format '" +:+ format
          +:+ "'")
   else mret ());;
  console_line
    ("Finding and encoding files matching the pattern " +:+ pattern
       +:+ " in directory " +:+ cwd);;
  proc_catch
    (filesystem ← await_async
       (Base64Filesystem cwd glob readFile completion pattern []);
     console_line
       ("Found and encoded " +:+ pretty (length (Object_keys filesystem))
          +:+ " file(s)");;
     let absOut := resolve outFile in
     (* format the output *)
     let content := select_content format filesystem in
     (* [filesystem === undefined] is false: [filesystem] is an object *)
     (* Write out the file *)
     console_line ("Beginning file write to " +:+ absOut);;
     proc_catch (write_file absOut content)
       (λ err,
          console_line
            ("error occurred while attempting to write file to " +:+ absOut);;
          proc_throw (wrapError err));;
     console_line ("Successfully wrote backup to " +:+ absOut);;
     mret ())
    (λ err,
       console_line "encountered an error during backup";;
       console_line (inspect err);;
       process_exit 1).

End Backup.

(** ** Occurrences of a comma *)

Fixpoint has_comma (s : string) : bool :=
  match s with
  | EmptyString => false
  | String a s' => Ascii.eqb a "," || has_comma s'
  end.

(** ** Reading a quoted JSON string back *)

Definition hex_value (c : ascii) : N :=
  let n := N_of_ascii c in
  if (48 <=? n) && (n <=? 57) then n - 48 else n - 87.

(** One code unit read back from the front of the body of a JSON string
    literal, with the text that follows it; [None] at the closing quote
    and at the end of the text. *)
Definition unquote_char (text : string) : option (ascii * string) :=
  match text with
  | EmptyString => None
  | String c rest =>
      if Ascii.eqb c dquote then None
      else if Ascii.eqb c "\" then
        match rest with
        | EmptyString => None
        | String e rest' =>
            if Ascii.eqb e "b" then Some (ascii_of_N 8, rest')
            else if Ascii.eqb e "t" then Some (ascii_of_N 9, rest')
            else if Ascii.eqb e "n" then Some (ascii_of_N 10, rest')
            else if Ascii.eqb e "f" then Some (ascii_of_N 12, rest')
            else if Ascii.eqb e "r" then Some (ascii_of_N 13, rest')
            else if Ascii.eqb e "u" then
              match rest' with
              | String _ (String _ (String h (String l rest''))) =>
                  Some (ascii_of_N (16 * hex_value h + hex_value l), rest'')
              | _ => None
              end
            else Some (e, rest')
        end
      else Some (c, rest)
  end.

(** * Properties *)

(** ** Strings *)

Lemma append_cons (a : ascii) (s t : string) :
  String a s +:+ t = String a (s +:+ t).
Proof. reflexivity. Qed.

Lemma append_nil_l (t : string) : "" +:+ t = t.
Proof. reflexivity. Qed.

Lemma append_nil_r (s : string) : s +:+ "" = s.
Proof.
  induction s as [|a s IH]; [reflexivity|].
  now rewrite append_cons, IH.
Qed.

Lemma append_assoc (s1 s2 s3 : string) :
  (s1 +:+ s2) +:+ s3 = s1 +:+ (s2 +:+ s3).
Proof.
  induction s1 as [|a s1 IH]; [reflexivity|].
  now rewrite !append_cons, IH.
Qed.

Lemma concat_empty_cons (x : string) (l : list string) :
  String.concat "" (x :: l) = x +:+ String.concat "" l.
Proof.
  destruct l; cbn [String.concat]; [now rewrite append_nil_r | reflexivity].
Qed.

(** A joined array is its first element followed by each other element
    behind a separator: no separator ends the text. *)
Lemma join_cons (sep x : string) (l : list string) :
  Js.join sep (x :: l) = x +:+ String.concat "" (map (λ y, sep +:+ y) l).
Proof.
  revert x. induction l as [|y l IH]; intros x.
  - cbn. now rewrite append_nil_r.
  - change (Js.join sep (x :: y :: l)) with (x +:+ sep +:+ Js.join sep (y :: l)).
    rewrite IH. cbn [map]. rewrite concat_empty_cons.
    now rewrite append_assoc.
Qed.

(** The escaping the code performs is the one the specification words. *)
Lemma replace_all_comma (path : string) :
  Js.replace_all "," "\," path = Csv.escaped_path path.
Proof.
  unfold Csv.escaped_path.
  induction path as [|a path IH]; [reflexivity|].
  cbn [Js.replace_all String.list_ascii_of_string map].
  rewrite concat_empty_cons, IH. now destruct (Ascii.eqb a ",").
Qed.

Lemma asCSV_entry_row (entry : FileEntry) :
  (asCSV_entry entry).1 = Csv.escaped_path entry.1 +:+ "," +:+ entry.2.
Proof.
  unfold asCSV_entry, entry_join. cbn [fst snd Js.join].
  now rewrite replace_all_comma.
Qed.

Lemma asCSV_entry_store (entry : FileEntry) :
  (asCSV_entry entry).2 = (Csv.escaped_path entry.1, entry.2).
Proof. unfold asCSV_entry. cbn [fst snd]. now rewrite replace_all_comma. Qed.

(** ** The CSV view *)

(** C8. [asCSV()] is the header [filepath,content] followed, for each entry
    in order, by a newline and the row [escapedPath,content], where the
    escaped path has backslash-comma for every comma; no newline ends the
    text, and the empty snapshot gives the header alone. *)
Theorem asCSV_format (filesystem : list FileEntry) :
  (asCSV filesystem).1
  = "filepath,content"
      +:+ String.concat ""
            (map (λ entry : FileEntry,
                    LF +:+ Csv.escaped_path entry.1 +:+ "," +:+ entry.2)
                 filesystem)
  ∧ (asCSV []).1 = "filepath,content".
Proof.
  split; [|reflexivity].
  unfold asCSV. cbn [fst]. rewrite join_cons. f_equal. f_equal.
  rewrite !map_map. apply map_ext. intros entry.
  now rewrite asCSV_entry_row.
Qed.

(** *** Reading a row back *)

Lemma replace_all_head (path : string) (b : ascii) (rest : string) :
  Js.replace_all "," "\," path = String b rest → Ascii.eqb b "," = false.
Proof.
  destruct path as [|a path]; [discriminate|].
  cbn [Js.replace_all]. destruct (Ascii.eqb a ",") eqn:Ha.
  - intros [= <- _]. reflexivity.
  - intros [= <- _]. exact Ha.
Qed.

Lemma unescape_cons (a : ascii) (field : string) :
  (∀ b rest, field = String b rest → Ascii.eqb b "," = false) →
  Csv.unescape (String a field) = String a (Csv.unescape field).
Proof.
  intros Hhead. destruct field as [|b rest]; [reflexivity|].
  cbn [Csv.unescape]. rewrite (Hhead b rest eq_refl).
  now rewrite andb_false_r.
Qed.

(** Unescaping undoes the escaping, whatever the path. *)
Lemma unescape_replace_all (path : string) :
  Csv.unescape (Js.replace_all "," "\," path) = path.
Proof.
  induction path as [|a path IH]; [reflexivity|].
  cbn [Js.replace_all]. destruct (Ascii.eqb a ",") eqn:Ha.
  - apply Ascii.eqb_eq in Ha as ->.
    change ("\," +:+ Js.replace_all "," "\," path)
      with (String "\" (String "," (Js.replace_all "," "\," path))).
    cbn [Csv.unescape]. rewrite !Ascii.eqb_refl. cbn [andb]. now rewrite IH.
  - rewrite unescape_cons by apply replace_all_head. now rewrite IH.
Qed.

(** The first field of a row is the escaped path, when the path does not
    end with a backslash. *)
Lemma fields_row (path content : string) (escaped : bool) :
  Csv.ends_with_backslash escaped path = false →
  Csv.fields escaped (Js.replace_all "," "\," path +:+ "," +:+ content)
  = (Js.replace_all "," "\," path, Csv.split content).
Proof.
  revert escaped. induction path as [|a path IH]; intros escaped Hend.
  - cbn in Hend. subst escaped. reflexivity.
  - cbn [Csv.ends_with_backslash] in Hend.
    cbn [Js.replace_all]. destruct (Ascii.eqb a ",") eqn:Ha.
    + apply Ascii.eqb_eq in Ha as ->.
      change (("\," +:+ Js.replace_all "," "\," path) +:+ "," +:+ content)
        with (String "\" (String ","
                (Js.replace_all "," "\," path +:+ "," +:+ content))).
      cbn [Csv.fields].
      change (Ascii.eqb "\" ",") with false.
      change (Ascii.eqb "\" "\") with true.
      change (Ascii.eqb "," ",") with true.
      cbn [andb negb].
      change (Ascii.eqb "," "\") with false in *.
      now rewrite (IH false Hend).
    + change (String a (Js.replace_all "," "\," path) +:+ "," +:+ content)
        with (String a (Js.replace_all "," "\," path +:+ "," +:+ content)).
      cbn [Csv.fields]. rewrite Ha. cbn [andb].
      now rewrite (IH _ Hend).
Qed.

(** C4, as the code has it.  The path decoded from an entry's CSV row is
    the stored path whenever that path does not end with a backslash:
    backslashes elsewhere in the path, before a comma included, do no
    harm. *)
Theorem csv_row_decodes_to_path (entry : FileEntry) :
  Csv.ends_with_backslash false entry.1 = false →
  Csv.decode_path (asCSV_entry entry).1 = entry.1.
Proof.
  intros Hend. unfold asCSV_entry, entry_join, Csv.decode_path, Csv.split.
  cbn [fst snd Js.join]. rewrite (fields_row _ _ _ Hend). cbn [hd].
  apply unescape_replace_all.
Qed.

Lemma csv_row_decodes_to_path_witness :
  Csv.decode_path (asCSV_entry ("dir\a,b\,c.txt", "eA==")).1
  = "dir\a,b\,c.txt".
Proof.
  apply (csv_row_decodes_to_path ("dir\a,b\,c.txt", "eA==")). reflexivity.
Defined.

(** C4, as stated, fails: the row of a path that ends with a backslash has
    no unescaped comma, so its first field runs into the content. *)
Lemma csv_row_trailing_backslash :
  Csv.decode_path (asCSV_entry ("a\", "eA==")).1 = "a,eA=="
  ∧ ¬ (∀ entry : FileEntry, Csv.decode_path (asCSV_entry entry).1 = entry.1).
Proof.
  split; [reflexivity|].
  intros H. specialize (H ("a\", "eA==")). discriminate H.
Qed.

(** ** What the views do to the stored entries *)

(** [asCSV] leaves every stored path escaped. *)
Lemma asCSV_store (filesystem : list FileEntry) :
  (asCSV filesystem).2
  = map (λ entry : FileEntry, (Csv.escaped_path entry.1, entry.2)) filesystem.
Proof.
  unfold asCSV. cbn [snd]. rewrite map_map. apply map_ext.
  intros entry. apply asCSV_entry_store.
Qed.

(** The three other views write nothing. *)
Lemma other_views_keep_store (filesystem : list FileEntry) :
  (asTSV filesystem).2 = filesystem
  ∧ (asJSON filesystem).2 = filesystem
  ∧ (toMap filesystem).2 = filesystem.
Proof. repeat split. Qed.

(** C2, at a snapshot whose path holds a comma.  [asCSV] writes the
    escaped name into the stored entry, so the store is changed, a second
    [asCSV] escapes once more, and [asJSON] and [toMap] called afterwards
    give another result than before. *)
Theorem asCSV_changes_the_store :
  let filesystem : list FileEntry := [("a,b", "eA==")] in
  (asCSV filesystem).2 = [("a\,b", "eA==")]
  ∧ (asCSV filesystem).1 = "filepath,content" +:+ LF +:+ "a\,b,eA=="
  ∧ (asCSV (asCSV filesystem).2).1 = "filepath,content" +:+ LF +:+ "a\\,b,eA=="
  ∧ (asJSON (asCSV filesystem).2).1 ≠ (asJSON filesystem).1
  ∧ (toMap (asCSV filesystem).2).1 !! "a,b" = None
  ∧ (toMap filesystem).1 !! "a,b" = Some "eA==".
Proof.
  cbv zeta. split; [reflexivity|]. split; [reflexivity|].
  split; [reflexivity|]. split; [|split; reflexivity].
  vm_compute. discriminate.
Qed.

(** ** The JSON view *)

Lemma asJSON_text (filesystem : list FileEntry) :
  (asJSON filesystem).1
  = "[" +:+ Js.join ","
              (map (λ entry : FileEntry,
                      "[" +:+ JSON.quote entry.1 +:+ ","
                          +:+ JSON.quote entry.2 +:+ "]")
                   filesystem)
        +:+ "]".
Proof.
  unfold asJSON, JSON.of_files. cbn [fst JSON.stringify].
  rewrite map_map. do 3 f_equal. apply map_ext. intros [path content].
  unfold JSON.of_entry. cbn [JSON.stringify map Js.join fst snd].
  now rewrite !append_assoc.
Qed.

(** C1, at the snapshot of scenario A and at the empty snapshot.  [asJSON]
    stringifies the array of tuples: the text is an array of two-element
    arrays, and always begins with an opening bracket, where the claim has
    the object built by [toMap]. *)
Theorem asJSON_is_an_array_of_tuples :
  (asJSON [("a.txt", "aGk="); ("b.txt", "eW8=")]).1
  = "[[" +:+ DQ +:+ "a.txt" +:+ DQ +:+ "," +:+ DQ +:+ "aGk=" +:+ DQ +:+ "],["
         +:+ DQ +:+ "b.txt" +:+ DQ +:+ "," +:+ DQ +:+ "eW8=" +:+ DQ +:+ "]]"
  ∧ (asJSON [("a.txt", "aGk="); ("b.txt", "eW8=")]).1
    ≠ "{" +:+ DQ +:+ "a.txt" +:+ DQ +:+ ":" +:+ DQ +:+ "aGk=" +:+ DQ +:+ ","
          +:+ DQ +:+ "b.txt" +:+ DQ +:+ ":" +:+ DQ +:+ "eW8=" +:+ DQ +:+ "}"
  ∧ (asJSON []).1 = "[]"
  ∧ ∀ filesystem, ∃ rest, (asJSON filesystem).1 = String "[" rest.
Proof.
  split; [reflexivity|]. split; [vm_compute; discriminate|].
  split; [reflexivity|].
  intros filesystem. rewrite asJSON_text. eexists. reflexivity.
Qed.

(** ** The map view *)

Lemma toMap_snoc (filesystem : list FileEntry) (entry : FileEntry) :
  (toMap (filesystem ++ [entry])).1
  = Js.set_property (toMap filesystem).1 entry.1 entry.2.
Proof. unfold toMap. cbn [fst]. now rewrite foldl_app. Qed.

Lemma last_content_snoc (path : string) (filesystem : list FileEntry)
    (entry : FileEntry) :
  last_content path (filesystem ++ [entry])
  = if String.eqb entry.1 path then Some entry.2
    else last_content path filesystem.
Proof.
  unfold last_content. rewrite List.filter_app. cbn [List.filter].
  destruct (String.eqb entry.1 path).
  - now rewrite last_snoc.
  - now rewrite app_nil_r.
Qed.

(** Last write wins, for every key but [__proto__]. *)
Lemma toMap_lookup (filesystem : list FileEntry) (path : string) :
  path ≠ "__proto__" →
  (toMap filesystem).1 !! path = last_content path filesystem.
Proof.
  intros Hpath. induction filesystem as [|entry filesystem IH] using rev_ind.
  - reflexivity.
  - rewrite toMap_snoc, last_content_snoc. unfold Js.set_property.
    destruct (String.eqb_spec entry.1 "__proto__") as [Hp|Hp].
    + destruct (String.eqb_spec entry.1 path) as [He|He]; [congruence|].
      exact IH.
    + destruct (String.eqb_spec entry.1 path) as [He|He].
      * subst path. apply lookup_insert_eq.
      * rewrite lookup_insert_ne by exact He. exact IH.
Qed.

(** The key [__proto__] is never an own property of the map. *)
Lemma toMap_lookup_proto (filesystem : list FileEntry) :
  (toMap filesystem).1 !! "__proto__" = None.
Proof.
  induction filesystem as [|entry filesystem IH] using rev_ind.
  - reflexivity.
  - rewrite toMap_snoc. unfold Js.set_property.
    destruct (String.eqb_spec entry.1 "__proto__") as [Hp|Hp]; [exact IH|].
    rewrite lookup_insert_ne by exact Hp. exact IH.
Qed.

#[local] Set Warnings "-clear-no-such-hyp".

(** The keys of the map are the distinct paths, [__proto__] left out. *)
Lemma toMap_dom (filesystem : list FileEntry) :
  dom (toMap filesystem).1
  = (list_to_set (map fst filesystem) : gset string) ∖ {["__proto__"]}.
Proof.
  induction filesystem as [|entry filesystem IH] using rev_ind.
  - cbn. set_solver.
  - rewrite toMap_snoc, map_app, list_to_set_app_L. cbn [map list_to_set].
    unfold Js.set_property.
    destruct (String.eqb_spec entry.1 "__proto__") as [Hp|Hp].
    + rewrite IH, Hp. set_solver.
    + rewrite dom_insert_L, IH. set_solver.
Qed.
#[local] Set Warnings "clear-no-such-hyp".

(** The CSV and TSV views have one body row per entry. *)
Lemma body_rows (filesystem : list FileEntry) :
  length (map fst (map asCSV_entry filesystem)) = length filesystem
  ∧ length (map (entry_join TAB) filesystem) = length filesystem.
Proof. now rewrite !length_map. Qed.

(** C7, at a snapshot whose path is the name [__proto__].  The assignment
    [reduction[filepath] = content] creates no own property for that name,
    so the map has no key for the path, where the claim has one key that
    holds the later content.  Both rows stay in the CSV and TSV views. *)
Theorem toMap_loses_proto_path :
  let filesystem : list FileEntry :=
    [("__proto__", "aGk="); ("__proto__", "eW8=")] in
  (toMap filesystem).1 = ∅
  ∧ (toMap filesystem).1 !! "__proto__" ≠ last_content "__proto__" filesystem
  ∧ length (map fst (map asCSV_entry filesystem)) = 2%nat
  ∧ length (map (entry_join TAB) filesystem) = 2%nat.
Proof.
  cbv zeta. split; [reflexivity|]. split; [|split; reflexivity].
  rewrite toMap_lookup_proto. vm_compute. discriminate.
Qed.

(** ** The path filters *)

Lemma filter_filter {A} (p q : A → bool) (l : list A) :
  List.filter q (List.filter p l) = List.filter (λ x, p x && q x) l.
Proof.
  induction l as [|x l IH]; [reflexivity|].
  cbn [List.filter]. destruct (p x) eqn:Hp; cbn [andb List.filter].
  - destruct (q x); now rewrite IH.
  - exact IH.
Qed.

Lemma forallb_Permutation {A} (p : A → bool) (l l' : list A) :
  l ≡ₚ l' → forallb p l = forallb p l'.
Proof.
  induction 1 as [|x l l' _ IH|x y l|l l' l'' _ IH1 _ IH2]; cbn [forallb].
  - reflexivity.
  - now rewrite IH.
  - now rewrite !andb_assoc, (andb_comm (p y)).
  - now rewrite IH1.
Qed.

Lemma apply_filters_forallb (filters : list (string → bool))
    (fileGlob : list string) :
  apply_filters filters fileGlob
  = List.filter (λ path, forallb (λ filter, filter path) filters) fileGlob.
Proof.
  unfold apply_filters. revert fileGlob.
  induction filters as [|filter filters IH]; intros fileGlob.
  - cbn. induction fileGlob as [|x l IHl]; [reflexivity|].
    cbn [List.filter]. now rewrite <- IHl.
  - cbn [foldl forallb]. rewrite IH. apply filter_filter.
Qed.

(** C9. Folding the filters from left to right keeps exactly the paths on
    which every predicate is true, in their order, and a permutation of
    the filters gives the same list. *)
Theorem apply_filters_conjunction (filters : list (string → bool))
    (fileGlob : list string) :
  apply_filters filters fileGlob
  = List.filter (λ path, forallb (λ filter, filter path) filters) fileGlob
  ∧ ∀ filters', filters ≡ₚ filters' →
      apply_filters filters' fileGlob = apply_filters filters fileGlob.
Proof.
  split; [apply apply_filters_forallb|].
  intros filters' Hperm. rewrite !apply_filters_forallb.
  apply List.filter_ext. intros path. symmetry.
  now apply forallb_Permutation.
Qed.

Lemma apply_filters_conjunction_witness :
  apply_filters [String.prefix "src/"; λ path, negb (String.eqb path "src/b.ts")]
                ["src/a.ts"; "README.md"; "src/b.ts"; "src/c.ts"]
  = ["src/a.ts"; "src/c.ts"]
  ∧ apply_filters [λ path, negb (String.eqb path "src/b.ts"); String.prefix "src/"]
                  ["src/a.ts"; "README.md"; "src/b.ts"; "src/c.ts"]
    = apply_filters [String.prefix "src/"; λ path, negb (String.eqb path "src/b.ts")]
                    ["src/a.ts"; "README.md"; "src/b.ts"; "src/c.ts"].
Proof.
  split; [reflexivity|].
  apply (proj2 (apply_filters_conjunction
                  [String.prefix "src/"; λ path, negb (String.eqb path "src/b.ts")]
                  ["src/a.ts"; "README.md"; "src/b.ts"; "src/c.ts"])).
  apply perm_swap.
Defined.

(** ** [Base64Filesystem]: failures *)

(** C3, whatever the cause of the failed expansion.  The handler of the
    failed [glob] throws [wrapError(fileGlob)], not [wrapError(err)], and
    [fileGlob] is the binding being initialised: the read throws a
    [ReferenceError], which the outer handler passes on unchanged.  The
    error that leaves the function is the same for every cause. *)
Theorem Base64Filesystem_glob_failure_loses_cause
    (cwd : string) (readFile : string → promise string)
    (completion : list nat) (globPattern : string)
    (filters : list (string → bool)) (cause : Js.value)
    (console : list string) :
  Base64Filesystem cwd (λ _, Rejected cause) readFile completion
                   globPattern filters console
  = (Rejected (Js.ErrorObject "ReferenceError"
                 "Cannot access 'fileGlob' before initialization"),
     console
       ++ ["error occurred executing glob pattern '" +:+ globPattern
             +:+ "' on directory " +:+ cwd]
       ++ ["error occurred creating backup file map"]).
Proof.
  unfold Base64Filesystem, catch, await, console_error, read_let, throw,
    mbind, Async_bind.
  cbn. now rewrite <- app_assoc.
Qed.

(** The sibling handler, on the reads, does pass its cause on: a failed
    read reaches the caller as [wrapError] of its own reason. *)
Lemma Base64Filesystem_read_failure_keeps_cause :
  (Base64Filesystem "/work" (λ _, Fulfilled ["a.txt"])
     (λ _, Rejected (Js.ErrorObject "Error" "ENOENT: no such file"))
     [0%nat] "*.txt" [] []).1
  = Rejected (wrapError (Js.ErrorObject "Error" "ENOENT: no such file")).
Proof. reflexivity. Qed.

(** ** [Base64Filesystem]: order of the entries *)

Lemma bind_fulfilled {A B} (m : Async A) (k : A → Async B)
    (a : A) (console console' : list string) :
  m console = (Fulfilled a, console') → (m ≫= k) console = k a console'.
Proof. intros Hm. unfold mbind, Async_bind. now rewrite Hm. Qed.

Lemma catch_fulfilled {A} (m : Async A) (handler : Js.value → Async A)
    (a : A) (console console' : list string) :
  m console = (Fulfilled a, console') →
  catch m handler console = (Fulfilled a, console').
Proof. intros Hm. unfold catch. now rewrite Hm. Qed.

Section Reads.

Variable readFile : string → promise string.
Variable content : string → string.
Variable paths : list string.
Hypothesis reads_fulfilled :
  ∀ path, path ∈ paths → readFile path = Fulfilled (content path).

Lemma read_and_encode_fulfilled (path : string) (console : list string) :
  path ∈ paths →
  read_and_encode readFile path console
  = (Fulfilled (read_of content path), console ++ ["encoded: " +:+ path]).
Proof.
  intros Hin. unfold read_and_encode, Base64.encode, await, console_info,
    mbind, Async_bind, mret, Async_ret.
  now rewrite (reads_fulfilled path Hin).
Qed.

Lemma settle_one_fulfilled (slots : list (option FileRead)) (i : nat)
    (console : list string) :
  slots_sound content paths slots →
  ∃ slots' console',
    settle_one (map (read_and_encode readFile) paths) slots i console
    = (Fulfilled slots', console')
    ∧ slots_sound content paths slots'
    ∧ (∀ j, filled (slots !! j) → filled (slots' !! j))
    ∧ ((i < length paths)%nat → filled (slots' !! i)).
Proof.
  intros Hsound. pose proof Hsound as [Hlen Hread]. unfold settle_one.
  change (map (read_and_encode readFile) paths)
    with (read_and_encode readFile <$> paths).
  rewrite list_lookup_fmap.
  destruct (paths !! i) as [path|] eqn:Hpath; cbn [fmap option_fmap option_map].
  - assert (Hin : path ∈ paths) by (eapply list_elem_of_lookup_2; eauto).
    assert (Hi : (i < length slots)%nat).
    { rewrite Hlen. eapply lookup_lt_Some; eauto. }
    destruct (slots !! i) as [[r|]|] eqn:Hslot.
    + exists slots, console. split; [reflexivity|]. split; [exact Hsound|].
      split; [auto|]. intros _. now exists r.
    + rewrite read_and_encode_fulfilled by exact Hin.
      eexists _, _. split; [reflexivity|]. split; [split|split].
      * now rewrite length_insert.
      * intros j r Hj. destruct (decide (i = j)) as [<-|Hne].
        -- rewrite list_lookup_insert_eq in Hj by exact Hi.
           injection Hj as <-. eauto.
        -- rewrite list_lookup_insert_ne in Hj by exact Hne. eauto.
      * intros j [r Hj]. destruct (decide (i = j)) as [<-|Hne].
        -- congruence.
        -- exists r. now rewrite list_lookup_insert_ne.
      * intros _. eexists. now apply list_lookup_insert_eq.
    + apply lookup_ge_None in Hslot. lia.
  - exists slots, console.
    assert (Hge : (length paths ≤ i)%nat) by now apply lookup_ge_None.
    split; [|split; [exact Hsound|split; [auto|lia]]].
    now destruct (slots !! i) as [[?|]|].
Qed.

Lemma settle_all_fulfilled (order : list nat) :
  ∀ (slots : list (option FileRead)) (console : list string),
    slots_sound content paths slots →
    ∃ slots' console',
      settle_all (map (read_and_encode readFile) paths) order slots console
      = (Fulfilled slots', console')
      ∧ slots_sound content paths slots'
      ∧ (∀ j, filled (slots !! j) → filled (slots' !! j))
      ∧ (∀ i, i ∈ order → (i < length paths)%nat → filled (slots' !! i)).
Proof.
  induction order as [|i order IH]; intros slots console Hsound.
  - exists slots, console.
    split; [reflexivity|]. split; [exact Hsound|]. split; [auto|].
    intros i Hi. now apply elem_of_nil in Hi.
  - destruct (settle_one_fulfilled slots i console Hsound)
      as (slots1 & console1 & Hrun1 & Hsound1 & Hmono1 & Hfill1).
    destruct (IH slots1 console1 Hsound1)
      as (slots2 & console2 & Hrun2 & Hsound2 & Hmono2 & Hfill2).
    exists slots2, console2.
    split; [|split; [exact Hsound2|split]].
    + cbn [settle_all]. now rewrite (bind_fulfilled _ _ _ _ _ Hrun1).
    + intros j Hj. auto.
    + intros j Hj Hlt. apply elem_of_cons in Hj as [->|Hj]; auto.
Qed.

(** When every index settles, [Promise.all] is fulfilled with the reads in
    the order of the paths, whatever the order of completion. *)
Lemma Promise_all_in_input_order (order : list nat) (console : list string) :
  (∀ i, (i < length paths)%nat → i ∈ order) →
  ∃ console',
    Promise_all order (map (read_and_encode readFile) paths) console
    = (Fulfilled (map (read_of content) paths), console').
Proof.
  intros Hcover.
  assert (Hsound0 : slots_sound content paths (replicate (length paths) None)).
  { split; [apply length_replicate|].
    intros i r Hi. apply lookup_replicate in Hi as [Hi _]. discriminate. }
  destruct (settle_all_fulfilled order _ console Hsound0)
    as (slots & console' & Hrun & [Hlen Hsound] & _ & Hfill).
  exists console'. unfold Promise_all. rewrite length_map.
  rewrite (bind_fulfilled _ _ _ _ _ Hrun).
  assert (Hslots : slots = Some <$> map (read_of content) paths).
  { apply list_eq. intros i. rewrite list_lookup_fmap.
    change (map (read_of content) paths) with (read_of content <$> paths).
    rewrite list_lookup_fmap.
    destruct (decide (i < length paths)%nat) as [Hlt|Hge].
    - destruct (Hfill i (Hcover i Hlt) Hlt) as [r Hr].
      destruct (Hsound i r Hr) as (path & Hpath & ->).
      now rewrite Hr, Hpath.
    - rewrite !lookup_ge_None_2 by lia. reflexivity. }
  rewrite Hslots, mapM_fmap_Some by reflexivity. reflexivity.
Qed.

End Reads.

(** C6. When the expansion gives [fileGlob], every read of a surviving
    path is fulfilled, and each read settles once, in any order, the
    snapshot holds one entry per surviving path in the order of the
    enumeration, and the JSON, CSV and TSV texts list the entries in that
    order. *)
Theorem Base64Filesystem_keeps_enumeration_order
    (cwd : string) (glob : string → promise (list string))
    (readFile : string → promise string) (completion : list nat)
    (globPattern : string) (filters : list (string → bool))
    (fileGlob : list string) (content : string → string)
    (console : list string) :
  glob globPattern = Fulfilled fileGlob →
  (∀ path, path ∈ apply_filters filters fileGlob →
           readFile path = Fulfilled (content path)) →
  completion ≡ₚ seq 0 (length (apply_filters filters fileGlob)) →
  ∃ filesystem,
    (Base64Filesystem cwd glob readFile completion globPattern filters
                      console).1
    = Fulfilled filesystem
    ∧ files filesystem
      = map (λ path, (path, content path)) (apply_filters filters fileGlob)
    ∧ (asJSON (files filesystem)).1
      = "[" +:+ Js.join ","
                  (map (λ path, "[" +:+ JSON.quote path +:+ ","
                                    +:+ JSON.quote (content path) +:+ "]")
                       (apply_filters filters fileGlob))
            +:+ "]"
    ∧ (asCSV (files filesystem)).1
      = Js.join LF
          ("filepath,content"
             :: map (λ path, Csv.escaped_path path +:+ "," +:+ content path)
                    (apply_filters filters fileGlob))
    ∧ (asTSV (files filesystem)).1
      = Js.join LF
          (("filepath" +:+ TAB +:+ "content")
             :: map (λ path, path +:+ TAB +:+ content path)
                    (apply_filters filters fileGlob)).
Proof.
  intros Hglob Hreads Hperm.
  set (filtered := apply_filters filters fileGlob) in *.
  destruct (Promise_all_in_input_order readFile content filtered Hreads
              completion console) as [console' Hall].
  { intros i Hi. rewrite Hperm. apply elem_of_seq. lia. }
  exists (mkFileSystem (map (λ path, (path, content path)) filtered)).
  split; [|split; [reflexivity|split; [|split]]].
  - unfold Base64Filesystem.
    erewrite catch_fulfilled; [reflexivity|].
    erewrite bind_fulfilled;
      [|apply catch_fulfilled; unfold await; rewrite Hglob; reflexivity].
    cbv zeta. fold filtered.
    erewrite bind_fulfilled; [|apply catch_fulfilled; exact Hall].
    rewrite map_map. reflexivity.
  - cbn [files]. rewrite asJSON_text, map_map. reflexivity.
  - cbn [files]. unfold asCSV. cbn [fst]. rewrite !map_map.
    do 2 f_equal. apply map_ext. intros path. now rewrite asCSV_entry_row.
  - cbn [files]. unfold asTSV. cbn [fst]. rewrite map_map. reflexivity.
Qed.

Lemma Base64Filesystem_keeps_enumeration_order_witness :
  ∃ filesystem,
    (Base64Filesystem "/work" (λ _, Fulfilled ["b.txt"; "a.txt"; "c.bin"])
       (λ path, Fulfilled (if String.eqb path "a.txt" then "aGk=" else "eW8="))
       [1%nat; 0%nat] "*" [String.prefix ".txt" ∘ String.substring 1 4] []).1
    = Fulfilled filesystem
    ∧ files filesystem = [("b.txt", "eW8="); ("a.txt", "aGk=")].
Proof.
  destruct (Base64Filesystem_keeps_enumeration_order
              "/work" (λ _, Fulfilled ["b.txt"; "a.txt"; "c.bin"])
              (λ path, Fulfilled (if String.eqb path "a.txt" then "aGk=" else "eW8="))
              [1%nat; 0%nat] "*" [String.prefix ".txt" ∘ String.substring 1 4]
              ["b.txt"; "a.txt"; "c.bin"]
              (λ path, if String.eqb path "a.txt" then "aGk=" else "eW8=") [])
    as (filesystem & Hrun & Hfiles & _).
  - reflexivity.
  - intros path _. reflexivity.
  - apply perm_swap.
  - exists filesystem. split; [exact Hrun | exact Hfiles].
Defined.

(** ** The base64 codec *)

Lemma list_ind3 {A} (P : list A → Prop) :
  P [] → (∀ a, P [a]) → (∀ a b, P [a; b]) →
  (∀ a b c l, P l → P (a :: b :: c :: l)) →
  ∀ l, P l.
Proof.
  intros H0 H1 H2 H3.
  fix IH 1.
  intros [|a [|b [|c l]]]; [exact H0 | apply H1 | apply H2 | apply H3, IH].
Qed.

Lemma uint8_to_N (b : byte) : Base64.uint8 (Byte.to_N b) = b.
Proof. destruct b; reflexivity. Qed.

Lemma all_bytes_complete (b : byte) : In b Base64.all_bytes.
Proof.
  unfold Base64.all_bytes. apply in_map_iff.
  exists (Byte.to_nat b). split.
  - rewrite <- Byte.to_N_via_nat. apply uint8_to_N.
  - apply in_seq. pose proof (Byte.to_nat_bounded b). lia.
Qed.

Lemma for_all_bytes (P : byte → bool) :
  forallb P Base64.all_bytes = true → ∀ b, P b = true.
Proof.
  intros Hall b. rewrite forallb_forall in Hall.
  apply Hall, all_bytes_complete.
Qed.

Lemma for_all_bytes2 (P : byte → byte → bool) :
  forallb (λ b1, forallb (P b1) Base64.all_bytes) Base64.all_bytes = true →
  ∀ b1 b2, P b1 b2 = true.
Proof.
  intros Hall b1 b2.
  apply (for_all_bytes (P b1)), (for_all_bytes _ Hall b1).
Qed.

Section Sextets.

Import Base64.

Lemma sextet1_survives b1 : sextet_survives (sextet1 b1) = true.
Proof. revert b1. apply for_all_bytes. vm_compute. reflexivity. Qed.

Lemma sextet2_survives b1 b2 : sextet_survives (sextet2 b1 b2) = true.
Proof. revert b1 b2. apply for_all_bytes2. vm_compute. reflexivity. Qed.

Lemma sextet3_survives b2 b3 : sextet_survives (sextet3 b2 b3) = true.
Proof. revert b2 b3. apply for_all_bytes2. vm_compute. reflexivity. Qed.

Lemma sextet4_survives b3 : sextet_survives (sextet4 b3) = true.
Proof. revert b3. apply for_all_bytes. vm_compute. reflexivity. Qed.

(** The decoder reads a surviving sextet back from its character. *)
Lemma sextets_char (sextet : N) (text : string) :
  sextet_survives sextet = true →
  sextets (String (base64_char sextet) text) = sextet :: sextets text.
Proof.
  unfold sextet_survives. intros H. apply andb_true_iff in H as [Hv Hpad].
  cbn [sextets]. apply negb_true_iff in Hpad. rewrite Hpad.
  destruct (unbase64 (base64_char sextet)) as [v|]; [|discriminate].
  apply N.eqb_eq in Hv. now subst v.
Qed.

Lemma octet1_sextets b1 b2 : octet1 (sextet1 b1) (sextet2 b1 b2) = b1.
Proof.
  apply Byte.byte_dec_bl. revert b1 b2.
  apply (for_all_bytes2
           (λ b1 b2, Byte.eqb (octet1 (sextet1 b1) (sextet2 b1 b2)) b1)).
  vm_compute. reflexivity.
Qed.

Lemma sextet2_low b1 b2 :
  N.land (sextet2 b1 b2) 15 = N.shiftr (Byte.to_N b2) 4.
Proof.
  apply N.eqb_eq. revert b1 b2.
  apply (for_all_bytes2
           (λ b1 b2, N.eqb (N.land (sextet2 b1 b2) 15)
                           (N.shiftr (Byte.to_N b2) 4))).
  vm_compute. reflexivity.
Qed.

Lemma sextet3_high b2 b3 :
  N.shiftr (N.land (sextet3 b2 b3) 60) 2 = N.land (Byte.to_N b2) 15.
Proof.
  apply N.eqb_eq. revert b2 b3.
  apply (for_all_bytes2
           (λ b2 b3, N.eqb (N.shiftr (N.land (sextet3 b2 b3) 60) 2)
                           (N.land (Byte.to_N b2) 15))).
  vm_compute. reflexivity.
Qed.

Lemma nibbles b :
  uint8 (N.lor (N.shiftl (N.shiftr (Byte.to_N b) 4) 4)
               (N.land (Byte.to_N b) 15)) = b.
Proof. destruct b; reflexivity. Qed.

Lemma octet2_sextets b1 b2 b3 :
  octet2 (sextet2 b1 b2) (sextet3 b2 b3) = b2.
Proof. unfold octet2. rewrite sextet2_low, sextet3_high. apply nibbles. Qed.

Lemma octet3_sextets b2 b3 : octet3 (sextet3 b2 b3) (sextet4 b3) = b3.
Proof.
  apply Byte.byte_dec_bl. revert b2 b3.
  apply (for_all_bytes2
           (λ b2 b3, Byte.eqb (octet3 (sextet3 b2 b3) (sextet4 b3)) b3)).
  vm_compute. reflexivity.
Qed.

Lemma Buffer_round_trip (B : list byte) :
  Buffer_from_base64 (encode_inline B) = B.
Proof.
  unfold Buffer_from_base64.
  induction B as [|b1|b1 b2|b1 b2 b3 rest IH] using list_ind3.
  - reflexivity.
  - cbn [encode_inline].
    rewrite !sextets_char
      by first [apply sextet1_survives | apply sextet2_survives].
    cbn [sextets octets Ascii.eqb]. now rewrite octet1_sextets.
  - cbn [encode_inline].
    rewrite !sextets_char
      by first [apply sextet1_survives | apply sextet2_survives
               | apply sextet3_survives].
    change (sextets "=") with (@nil N). cbn [octets].
    now rewrite octet1_sextets, octet2_sextets.
  - cbn [encode_inline].
    rewrite !sextets_char
      by first [apply sextet1_survives | apply sextet2_survives
               | apply sextet3_survives | apply sextet4_survives].
    cbn [octets].
    now rewrite octet1_sextets, octet2_sextets, octet3_sextets, IH.
Qed.

End Sextets.

(** C5. Decoding the base64 text of a byte sequence gives the byte
    sequence back. *)
Theorem base64_round_trip (B : list byte) :
  Base64.decode (Base64.encode_inline B) = Fulfilled B.
Proof. unfold Base64.decode. now rewrite Buffer_round_trip. Qed.

(** A character that is neither legal nor the padding character adds
    nothing to what the decoder reads. *)
Lemma sextets_skip (before after : string) (c : ascii) :
  Base64.unbase64 c = None → c ≠ "="%char →
  Base64.sextets (before +:+ String c after)
  = Base64.sextets (before +:+ after).
Proof.
  intros Hc Hpad. induction before as [|a before IH].
  - rewrite !append_nil_l. cbn [Base64.sextets]. rewrite Hc.
    now destruct (Ascii.eqb_spec c "=").
  - rewrite !append_cons. cbn [Base64.sextets]. now rewrite IH.
Qed.

(** C10. [Base64.decode] is fulfilled with a buffer for every text, and a
    character outside the base64 alphabets is ignored: the text decodes as
    it does without that character. *)
Theorem decode_never_rejects :
  (∀ base64 : string, ∃ buffer, Base64.decode base64 = Fulfilled buffer)
  ∧ (∀ (before after : string) (c : ascii),
       Base64.unbase64 c = None → c ≠ "="%char →
       Base64.decode (before +:+ String c after)
       = Base64.decode (before +:+ after)).
Proof.
  split.
  - intros base64. eexists. reflexivity.
  - intros before after c Hc Hpad.
    unfold Base64.decode, Base64.Buffer_from_base64.
    now rewrite sextets_skip.
Qed.

Lemma decode_never_rejects_witness :
  Base64.decode "aG!k=" = Base64.decode "aGk="
  ∧ Base64.decode "aG!k=" = Fulfilled [x68; x69].
Proof.
  split; [|reflexivity].
  apply (proj2 decode_never_rejects "aG" "k=" "!"%char).
  - reflexivity.
  - discriminate.
Defined.

(** ** Scenarios of the specification *)

Example asCSV_scenario_B :
  (asCSV [("a.txt", "aGk="); ("b.txt", "eW8=")]).1
  = "filepath,content" +:+ LF +:+ "a.txt,aGk=" +:+ LF +:+ "b.txt,eW8=".
Proof. reflexivity. Qed.

Example asTSV_scenario_C :
  (asTSV []).1 = "filepath" +:+ TAB +:+ "content".
Proof. reflexivity. Qed.

Example encode_hi : Base64.encode_inline [x68; x69] = "aGk=".
Proof. reflexivity. Qed.

Example encode_yo : Base64.encode_inline [x79; x6f] = "eW8=".
Proof. reflexivity. Qed.

Example decode_not_base64 : Base64.decode "?!*" = Fulfilled [].
Proof. reflexivity. Qed.

(** * Further properties of the code *)

(** ** [wrapError] and [isSupportedType] *)



(** X2. [isSupportedType] accepts exactly the three strings [json], [csv]
    and [tsv]; a value that is not a string is refused. *)
Theorem isSupportedType_iff (format : Js.value) :
  isSupportedType format = true
  ↔ format = Js.Str "json" ∨ format = Js.Str "csv" ∨ format = Js.Str "tsv".
Proof.
  split.
  - destruct format as [|s| |]; try discriminate.
    unfold isSupportedType, supportedFormats. cbn [List.filter].
    destruct (String.eqb_spec s "json") as [->|Hj]; [auto|].
    destruct (String.eqb_spec s "csv") as [->|Hc]; [auto|].
    destruct (String.eqb_spec s "tsv") as [->|Ht]; [auto|].
    discriminate.
  - intros [->|[->| ->]]; reflexivity.
Qed.

Lemma isSupportedType_iff_witness :
  isSupportedType (Js.Str "csv") = true.
Proof. apply (proj2 (isSupportedType_iff (Js.Str "csv"))). auto. Defined.

(** ** The TSV view *)

(** X3. [asTSV()] is the header [filepath<TAB>content] followed, for each
    entry in order, by a newline and the row [path<TAB>content] with the
    path as stored; no newline ends the text, and the stored entries are
    left as they were. *)
Theorem asTSV_format (filesystem : list FileEntry) :
  (asTSV filesystem).1
  = ("filepath" +:+ TAB +:+ "content")
      +:+ String.concat ""
            (map (λ entry : FileEntry, LF +:+ entry.1 +:+ TAB +:+ entry.2)
                 filesystem)
  ∧ (asTSV filesystem).2 = filesystem.
Proof.
  split; [|reflexivity].
  unfold asTSV. cbn [fst]. rewrite join_cons. f_equal. f_equal.
  rewrite map_map. reflexivity.
Qed.

(** ** When [asCSV] leaves the store alone *)

Lemma replace_all_fixed (path : string) :
  Js.replace_all "," "\," path = path ↔ has_comma path = false.
Proof.
  induction path as [|a path IH]; [easy|].
  cbn [Js.replace_all has_comma].
  destruct (Ascii.eqb_spec a ",") as [->|Ha]; cbn [orb].
  - split; [|discriminate]. intros H. discriminate H.
  - rewrite <- IH. split; [intros [= H]; exact H | intros ->; reflexivity].
Qed.

(** X4. [asCSV] leaves the stored entries unchanged exactly when no stored
    path contains a comma. *)
Theorem asCSV_keeps_store_iff (filesystem : list FileEntry) :
  (asCSV filesystem).2 = filesystem
  ↔ Forall (λ entry : FileEntry, has_comma entry.1 = false) filesystem.
Proof.
  unfold asCSV. cbn [snd]. rewrite map_map.
  induction filesystem as [|[path content] filesystem IH].
  - split; [constructor | reflexivity].
  - cbn [map]. rewrite Forall_cons, <- IH.
    unfold asCSV_entry at 1. cbn [fst snd].
    rewrite <- replace_all_fixed. split.
    + intros [= Hp Hrest]. split; assumption.
    + intros [Hp Hrest]. now rewrite Hp, Hrest.
Qed.

Lemma asCSV_keeps_store_iff_witness :
  (asCSV [("a.txt", "aGk="); ("dir\b.txt", "eW8=")]).2
  = [("a.txt", "aGk="); ("dir\b.txt", "eW8=")].
Proof.
  apply (proj2 (asCSV_keeps_store_iff
                  [("a.txt", "aGk="); ("dir\b.txt", "eW8=")])).
  repeat constructor.
Defined.

(** ** The map view, key by key *)

(** X5. [toMap()] holds, for every key, the content of the last entry
    stored under that path, and nothing when no entry has the path; the
    key [__proto__] alone is never held. *)
Theorem toMap_last_write_wins (filesystem : list FileEntry) (path : string) :
  (toMap filesystem).1 !! path
  = if String.eqb path "__proto__" then None
    else last_content path filesystem.
Proof.
  destruct (String.eqb_spec path "__proto__") as [->|Hpath].
  - apply toMap_lookup_proto.
  - now apply toMap_lookup.
Qed.

(** X6. The keys of [toMap()] are the distinct stored paths, [__proto__]
    left out: one key per path, however often the path is stored. *)
Theorem toMap_keys (filesystem : list FileEntry) :
  dom (toMap filesystem).1
  = (list_to_set (map fst filesystem) : gset string) ∖ {["__proto__"]}
  ∧ (size (toMap filesystem).1 ≤ length filesystem)%nat.
Proof.
  split; [apply toMap_dom|].
  induction filesystem as [|entry filesystem IH] using rev_ind; [reflexivity|].
  rewrite toMap_snoc, length_app. cbn [length]. unfold Js.set_property.
  destruct (String.eqb entry.1 "__proto__"); [lia|].
  destruct ((toMap filesystem).1 !! entry.1) as [old|] eqn:Hold.
  - rewrite map_size_insert_Some by eauto. lia.
  - rewrite map_size_insert_None by exact Hold. lia.
Qed.

(** ** [Base64Filesystem]: what a run does *)

Lemma wrapError_twice (v : Js.value) : wrapError (wrapError v) = wrapError v.
Proof. now destruct v. Qed.

Lemma bind_rejected {A B} (m : Async A) (k : A → Async B)
    (reason : Js.value) (console console' : list string) :
  m console = (Rejected reason, console') →
  (m ≫= k) console = (Rejected reason, console').
Proof. intros Hm. unfold mbind, Async_bind. now rewrite Hm. Qed.

Lemma catch_rejected {A} (m : Async A) (handler : Js.value → Async A)
    (reason : Js.value) (console console' : list string) :
  m console = (Rejected reason, console') →
  catch m handler console = handler reason console'.
Proof. intros Hm. unfold catch. now rewrite Hm. Qed.

Lemma read_and_encode_run (readFile : string → promise string)
    (path : string) (console : list string) :
  read_and_encode readFile path console
  = match readFile path with
    | Fulfilled contents =>
        (Fulfilled (mkFileRead contents path),
         console ++ ["encoded: " +:+ path])
    | Rejected reason => (Rejected reason, console)
    | Pending => (Pending, console)
    end.
Proof.
  unfold read_and_encode, Base64.encode, await, console_info,
    mbind, Async_bind, mret, Async_ret.
  now destruct (readFile path).
Qed.

Lemma settle_one_lookup (readFile : string → promise string)
    (paths : list string) (slots : list (option FileRead)) (i : nat)
    (path : string) (console : list string) :
  paths !! i = Some path → slots !! i = Some None →
  settle_one (map (read_and_encode readFile) paths) slots i console
  = match readFile path with
    | Fulfilled contents =>
        (Fulfilled (<[i := Some (mkFileRead contents path)]> slots),
         console ++ ["encoded: " +:+ path])
    | Rejected reason => (Rejected reason, console)
    | Pending => (Fulfilled slots, console)
    end.
Proof.
  intros Hpath Hslot. unfold settle_one.
  change (map (read_and_encode readFile) paths)
    with (read_and_encode readFile <$> paths).
  rewrite list_lookup_fmap, Hpath, Hslot. cbn [fmap option_fmap option_map].
  rewrite read_and_encode_run. now destruct (readFile path).
Qed.

(** A read that is not rejected leaves the other slots alone. *)
Lemma settle_one_untouched (readFile : string → promise string)
    (paths : list string) (slots : list (option FileRead)) (i : nat)
    (console : list string) :
  (∀ path reason, paths !! i = Some path → readFile path ≠ Rejected reason) →
  ∃ slots' console',
    settle_one (map (read_and_encode readFile) paths) slots i console
    = (Fulfilled slots', console')
    ∧ length slots' = length slots
    ∧ ∀ k, k ≠ i → slots' !! k = slots !! k.
Proof.
  intros Hok.
  destruct (paths !! i) as [path|] eqn:Hpath.
  - destruct (slots !! i) as [[r|]|] eqn:Hslot.
    + exists slots, console. unfold settle_one.
      change (map (read_and_encode readFile) paths)
        with (read_and_encode readFile <$> paths).
      now rewrite list_lookup_fmap, Hpath, Hslot.
    + rewrite (settle_one_lookup _ _ _ _ _ _ Hpath Hslot).
      destruct (readFile path) as [contents|reason|] eqn:Hread.
      * eexists _, _. split; [reflexivity|]. split; [apply length_insert|].
        intros k Hk. now apply list_lookup_insert_ne.
      * now destruct (Hok path reason eq_refl).
      * exists slots, console. auto.
    + exists slots, console. unfold settle_one.
      change (map (read_and_encode readFile) paths)
        with (read_and_encode readFile <$> paths).
      now rewrite list_lookup_fmap, Hpath, Hslot.
  - exists slots, console. unfold settle_one.
    change (map (read_and_encode readFile) paths)
      with (read_and_encode readFile <$> paths).
    rewrite list_lookup_fmap, Hpath. cbn.
    split; [|auto]. now destruct (slots !! i) as [[?|]|].
Qed.

Lemma settle_all_untouched (readFile : string → promise string)
    (paths : list string) (order : list nat) :
  (∀ i path reason, i ∈ order → paths !! i = Some path →
                    readFile path ≠ Rejected reason) →
  ∀ (slots : list (option FileRead)) (console : list string),
  ∃ slots' console',
    settle_all (map (read_and_encode readFile) paths) order slots console
    = (Fulfilled slots', console')
    ∧ length slots' = length slots
    ∧ ∀ k, k ∉ order → slots' !! k = slots !! k.
Proof.
  induction order as [|i order IH]; intros Hok slots console.
  - exists slots, console. auto.
  - destruct (settle_one_untouched readFile paths slots i console)
      as (slots1 & console1 & Hrun1 & Hlen1 & Hsame1).
    { intros path reason. apply Hok. left. }
    destruct (IH (λ j path reason Hj, Hok j path reason
                    (list_elem_of_further _ _ _ Hj)) slots1 console1)
      as (slots2 & console2 & Hrun2 & Hlen2 & Hsame2).
    exists slots2, console2. split; [|split].
    + cbn [settle_all]. now rewrite (bind_fulfilled _ _ _ _ _ Hrun1).
    + congruence.
    + intros k Hk. apply not_elem_of_cons in Hk as [Hne Hk].
      rewrite Hsame2 by exact Hk. now apply Hsame1.
Qed.

Lemma settle_all_app {A} (tasks : list (Async A)) (before rest : list nat) :
  ∀ (slots slots' : list (option A)) (console console' : list string),
    settle_all tasks before slots console = (Fulfilled slots', console') →
    settle_all tasks (before ++ rest) slots console
    = settle_all tasks rest slots' console'.
Proof.
  induction before as [|i before IH]; intros slots slots' console console'.
  - cbn. now intros [= -> ->].
  - cbn [settle_all app]. unfold mbind, Async_bind.
    destruct (settle_one tasks slots i console) as [[slots1|reason|] console1];
      [|discriminate|discriminate].
    apply IH.
Qed.

Lemma settle_all_no_tasks {A} (order : list nat) (console : list string) :
  settle_all (@nil (Async A)) order [] console = (Fulfilled [], console).
Proof. induction order as [|i order IH]; [reflexivity | exact IH]. Qed.

(** X7. When no path survives the expansion and the filters, the run is
    fulfilled with the empty snapshot and prints nothing, whatever the
    files hold and whatever settles. *)
Theorem Base64Filesystem_no_match
    (cwd : string) (glob : string → promise (list string))
    (readFile : string → promise string) (completion : list nat)
    (globPattern : string) (filters : list (string → bool))
    (fileGlob : list string) (console : list string) :
  glob globPattern = Fulfilled fileGlob →
  apply_filters filters fileGlob = [] →
  Base64Filesystem cwd glob readFile completion globPattern filters console
  = (Fulfilled (mkFileSystem []), console).
Proof.
  intros Hglob Hnone. unfold Base64Filesystem. apply catch_fulfilled.
  erewrite bind_fulfilled;
    [|apply catch_fulfilled; unfold await; rewrite Hglob; reflexivity].
  cbv zeta. rewrite Hnone. cbn [map].
  erewrite bind_fulfilled.
  2:{ apply catch_fulfilled. unfold Promise_all. cbn [length replicate].
      erewrite bind_fulfilled by apply settle_all_no_tasks. reflexivity. }
  reflexivity.
Qed.

Lemma Base64Filesystem_no_match_witness :
  Base64Filesystem "/work" (λ _, Fulfilled ["a.txt"; "b.txt"])
    (λ _, Rejected (Js.Str "unreadable")) [1%nat; 0%nat] "*"
    [String.prefix "src/"] []
  = (Fulfilled (mkFileSystem []), []).
Proof.
  apply (Base64Filesystem_no_match "/work" (λ _, Fulfilled ["a.txt"; "b.txt"])
           (λ _, Rejected (Js.Str "unreadable")) [1%nat; 0%nat] "*"
           [String.prefix "src/"] ["a.txt"; "b.txt"] []); reflexivity.
Defined.

(** X8. When a read is rejected and no read that settled before it was,
    the run is rejected with [wrapError] of that read's reason, after the
    two error lines; the reads that would settle later play no part. *)
Theorem Base64Filesystem_first_rejection
    (cwd : string) (glob : string → promise (list string))
    (readFile : string → promise string) (before after : list nat)
    (j : nat) (globPattern : string) (filters : list (string → bool))
    (fileGlob : list string) (path : string) (reason : Js.value)
    (console : list string) :
  glob globPattern = Fulfilled fileGlob →
  (∀ i path' reason', i ∈ before →
       apply_filters filters fileGlob !! i = Some path' →
       readFile path' ≠ Rejected reason') →
  j ∉ before →
  apply_filters filters fileGlob !! j = Some path →
  readFile path = Rejected reason →
  ∃ console',
    Base64Filesystem cwd glob readFile (before ++ j :: after)
                     globPattern filters console
    = (Rejected (wrapError reason),
       console' ++ ["encountered error reading and encoding files";
                    "error occurred creating backup file map"]).
Proof.
  intros Hglob Hbefore Hj Hpath Hread.
  set (filtered := apply_filters filters fileGlob) in *.
  destruct (settle_all_untouched readFile filtered before Hbefore
              (replicate (length filtered) None) console)
    as (slots & console' & Hrun & Hlen & Hsame).
  assert (Hslot : slots !! j = Some None).
  { rewrite Hsame by exact Hj. apply lookup_replicate_2.
    eapply lookup_lt_Some; eauto. }
  assert (Hall : Promise_all (before ++ j :: after)
                   (map (read_and_encode readFile) filtered) console
                 = (Rejected reason, console')).
  { unfold Promise_all. rewrite length_map. apply bind_rejected.
    rewrite (settle_all_app _ _ _ _ _ _ _ Hrun). cbn [settle_all].
    apply bind_rejected.
    rewrite (settle_one_lookup _ _ _ _ _ _ Hpath Hslot). now rewrite Hread. }
  exists console'. unfold Base64Filesystem.
  erewrite catch_rejected.
  2:{ erewrite bind_fulfilled;
        [|apply catch_fulfilled; unfold await; rewrite Hglob; reflexivity].
      cbv zeta. fold filtered. apply bind_rejected.
      erewrite catch_rejected by exact Hall. reflexivity. }
  unfold console_error, throw, mbind, Async_bind. cbn.
  now rewrite wrapError_twice, <- app_assoc.
Qed.

Lemma Base64Filesystem_first_rejection_witness :
  ∃ console',
    Base64Filesystem "/work" (λ _, Fulfilled ["a.txt"; "b.txt"; "c.txt"])
      (λ path, if String.eqb path "a.txt" then Fulfilled "aGk="
               else Rejected (Js.Str path))
      ([0%nat] ++ 2%nat :: [1%nat]) "*" [] []
    = (Rejected (wrapError (Js.Str "c.txt")),
       console' ++ ["encountered error reading and encoding files";
                    "error occurred creating backup file map"]).
Proof.
  apply (Base64Filesystem_first_rejection "/work"
           (λ _, Fulfilled ["a.txt"; "b.txt"; "c.txt"])
           (λ path, if String.eqb path "a.txt" then Fulfilled "aGk="
                    else Rejected (Js.Str path))
           [0%nat] [1%nat] 2 "*" [] ["a.txt"; "b.txt"; "c.txt"] "c.txt").
  - reflexivity.
  - intros i path' reason' Hi Hpath'. apply list_elem_of_singleton in Hi.
    subst i. injection Hpath' as <-. discriminate.
  - intros Hin. apply list_elem_of_singleton in Hin. discriminate.
  - reflexivity.
  - reflexivity.
Defined.

(** Each read that settles fulfilled adds its own line, in the order of
    completion. *)
Lemma settle_all_console (readFile : string → promise string)
    (content : string → string) (paths : list string) (order : list nat) :
  (∀ path, path ∈ paths → readFile path = Fulfilled (content path)) →
  NoDup order →
  ∀ (slots : list (option FileRead)) (console : list string),
    (∀ i, i ∈ order → (i < length paths)%nat ∧ slots !! i = Some None) →
    ∃ slots',
      settle_all (map (read_and_encode readFile) paths) order slots console
      = (Fulfilled slots',
         console ++ map (λ i, "encoded: " +:+ nth i paths "") order).
Proof.
  intros Hreads. induction order as [|i order IH]; intros Hnodup slots console Hfree.
  - exists slots. cbn. now rewrite app_nil_r.
  - apply NoDup_cons in Hnodup as [Hi Hnodup].
    destruct (Hfree i) as [Hlt Hslot]; [left|].
    destruct (lookup_lt_is_Some_2 paths i Hlt) as [path Hpath].
    assert (Hin : path ∈ paths) by (eapply list_elem_of_lookup_2; eauto).
    destruct (IH Hnodup (<[i := Some (mkFileRead (content path) path)]> slots)
                (console ++ ["encoded: " +:+ path])) as [slots' Hrun].
    { intros k Hk. destruct (Hfree k) as [Hklt Hkslot]; [now right|].
      split; [exact Hklt|].
      rewrite list_lookup_insert_ne; [exact Hkslot|]. now intros ->. }
    exists slots'. cbn [settle_all map].
    erewrite bind_fulfilled.
    2:{ rewrite (settle_one_lookup _ _ _ _ _ _ Hpath Hslot).
        rewrite (Hreads path Hin). reflexivity. }
    rewrite Hrun. rewrite <- app_assoc. cbn [app].
    now rewrite (nth_lookup_Some _ _ _ _ Hpath).
Qed.

(** A fulfilled run, in full: the snapshot and the console. *)
Lemma Base64Filesystem_run
    (cwd : string) (glob : string → promise (list string))
    (readFile : string → promise string) (completion : list nat)
    (globPattern : string) (filters : list (string → bool))
    (fileGlob : list string) (content : string → string)
    (console : list string) :
  glob globPattern = Fulfilled fileGlob →
  (∀ path, path ∈ apply_filters filters fileGlob →
           readFile path = Fulfilled (content path)) →
  completion ≡ₚ seq 0 (length (apply_filters filters fileGlob)) →
  Base64Filesystem cwd glob readFile completion globPattern filters console
  = (Fulfilled
       (mkFileSystem
          (map (λ path, (path, content path))
               (apply_filters filters fileGlob))),
     console
       ++ map (λ i, "encoded: " +:+ nth i (apply_filters filters fileGlob) "")
              completion).
Proof.
  intros Hglob Hreads Hperm.
  set (filtered := apply_filters filters fileGlob) in *.
  assert (Hrange : ∀ i, i ∈ completion ↔ (i < length filtered)%nat).
  { intros i. rewrite Hperm, elem_of_seq. lia. }
  destruct (Promise_all_in_input_order readFile content filtered Hreads
              completion console) as [console' Hall].
  { intros i. apply Hrange. }
  destruct (settle_all_console readFile content filtered completion Hreads)
    with (slots := replicate (length filtered) (@None FileRead))
         (console := console) as [slots Hrun].
  { rewrite Hperm. apply NoDup_seq. }
  { intros i Hi. apply Hrange in Hi. split; [exact Hi|].
    now apply lookup_replicate_2. }
  assert (Hconsole : console'
            = console ++ map (λ i, "encoded: " +:+ nth i filtered "") completion).
  { unfold Promise_all in Hall. rewrite length_map in Hall.
    rewrite (bind_fulfilled _ _ _ _ _ Hrun) in Hall.
    destruct (mapM id slots); [now injection Hall as _ <-|discriminate Hall]. }
  subst console'. unfold Base64Filesystem. apply catch_fulfilled.
  erewrite bind_fulfilled;
    [|apply catch_fulfilled; unfold await; rewrite Hglob; reflexivity].
  cbv zeta. fold filtered.
  erewrite bind_fulfilled; [|apply catch_fulfilled; exact Hall].
  rewrite map_map. reflexivity.
Qed.

(** X9. In a fulfilled run the console gains one line [encoded: <path>]
    per read, in the order in which the reads settle, and no other line:
    the log follows completion, the snapshot follows enumeration. *)
Theorem Base64Filesystem_console_in_completion_order
    (cwd : string) (glob : string → promise (list string))
    (readFile : string → promise string) (completion : list nat)
    (globPattern : string) (filters : list (string → bool))
    (fileGlob : list string) (content : string → string)
    (console : list string) :
  glob globPattern = Fulfilled fileGlob →
  (∀ path, path ∈ apply_filters filters fileGlob →
           readFile path = Fulfilled (content path)) →
  completion ≡ₚ seq 0 (length (apply_filters filters fileGlob)) →
  (Base64Filesystem cwd glob readFile completion globPattern filters
                    console).2
  = console
      ++ map (λ i, "encoded: " +:+ nth i (apply_filters filters fileGlob) "")
             completion.
Proof.
  intros Hglob Hreads Hperm.
  now rewrite (Base64Filesystem_run _ _ _ _ _ _ _ _ _ Hglob Hreads Hperm).
Qed.

Lemma Base64Filesystem_console_in_completion_order_witness :
  (Base64Filesystem "/work" (λ _, Fulfilled ["a.txt"; "b.txt"; "c.txt"])
     (λ _, Fulfilled "eA==") [2%nat; 0%nat; 1%nat] "*" [] ["start"]).2
  = ["start"; "encoded: c.txt"; "encoded: a.txt"; "encoded: b.txt"].
Proof.
  apply (Base64Filesystem_console_in_completion_order
           "/work" (λ _, Fulfilled ["a.txt"; "b.txt"; "c.txt"])
           (λ _, Fulfilled "eA==") [2%nat; 0%nat; 1%nat] "*" []
           ["a.txt"; "b.txt"; "c.txt"] (λ _, "eA==") ["start"]).
  - reflexivity.
  - intros path _. reflexivity.
  - change (seq 0 (length (apply_filters [] ["a.txt"; "b.txt"; "c.txt"])))
      with [0; 1; 2]%nat.
    apply (Permutation_cons_app [0; 1]%nat [] 2%nat).
    reflexivity.
Defined.

(** X10. A run reads the surviving paths only: two worlds whose files
    agree on the paths that pass the expansion and the filters give the
    same outcome and the same console, whatever the other files hold. *)
Theorem Base64Filesystem_reads_only_survivors
    (cwd : string) (glob : string → promise (list string))
    (readFile readFile' : string → promise string) (completion : list nat)
    (globPattern : string) (filters : list (string → bool))
    (fileGlob : list string) (console : list string) :
  glob globPattern = Fulfilled fileGlob →
  (∀ path, path ∈ apply_filters filters fileGlob →
           readFile path = readFile' path) →
  Base64Filesystem cwd glob readFile completion globPattern filters console
  = Base64Filesystem cwd glob readFile' completion globPattern filters console.
Proof.
  intros Hglob Hsame.
  assert (Htasks : map (read_and_encode readFile)
                       (apply_filters filters fileGlob)
                   = map (read_and_encode readFile')
                         (apply_filters filters fileGlob)).
  { apply map_ext_in. intros path Hin. apply list_elem_of_In in Hin.
    unfold read_and_encode, Base64.encode. now rewrite (Hsame path Hin). }
  unfold Base64Filesystem, catch, await, mbind, Async_bind.
  rewrite Hglob. cbv zeta. now rewrite Htasks.
Qed.

Lemma Base64Filesystem_reads_only_survivors_witness :
  Base64Filesystem "/work" (λ _, Fulfilled ["a.txt"; "b.bin"])
    (λ path, if String.eqb path "a.txt" then Fulfilled "aGk="
             else Rejected (Js.Str "unreadable"))
    [0%nat] "*" [String.prefix "a"] []
  = Base64Filesystem "/work" (λ _, Fulfilled ["a.txt"; "b.bin"])
      (λ _, Fulfilled "aGk=") [0%nat] "*" [String.prefix "a"] [].
Proof.
  apply (Base64Filesystem_reads_only_survivors "/work"
           (λ _, Fulfilled ["a.txt"; "b.bin"])
           (λ path, if String.eqb path "a.txt" then Fulfilled "aGk="
                    else Rejected (Js.Str "unreadable"))
           (λ _, Fulfilled "aGk=") [0%nat] "*" [String.prefix "a"]
           ["a.txt"; "b.bin"] []).
  - reflexivity.
  - intros path Hin. apply list_elem_of_singleton in Hin. now subst path.
Defined.

(** X11. A snapshot can be restored: when every surviving file is read as
    the base64 text of its bytes, the run is fulfilled with one entry per
    surviving path, in order, and decoding the content of each entry gives
    the bytes of the file at the entry's path. *)
Theorem snapshot_decodes_to_files
    (cwd : string) (glob : string → promise (list string))
    (readFile : string → promise string) (completion : list nat)
    (globPattern : string) (filters : list (string → bool))
    (fileGlob : list string) (bytes : string → list byte)
    (console : list string) :
  glob globPattern = Fulfilled fileGlob →
  (∀ path, path ∈ apply_filters filters fileGlob →
           readFile path = Fulfilled (Base64.encode_inline (bytes path))) →
  completion ≡ₚ seq 0 (length (apply_filters filters fileGlob)) →
  ∃ filesystem,
    (Base64Filesystem cwd glob readFile completion globPattern filters
                      console).1
    = Fulfilled filesystem
    ∧ map fst (files filesystem) = apply_filters filters fileGlob
    ∧ Forall (λ entry : FileEntry,
                Base64.decode entry.2 = Fulfilled (bytes entry.1))
             (files filesystem).
Proof.
  intros Hglob Hreads Hperm.
  rewrite (Base64Filesystem_run _ _ _ _ _ _ _
             (λ path, Base64.encode_inline (bytes path)) _ Hglob Hreads Hperm).
  eexists. split; [reflexivity|]. cbn [files]. split.
  - rewrite map_map. cbn [fst]. apply map_id.
  - apply Forall_map, Forall_forall. intros path _. cbn [fst snd].
    unfold Base64.decode. now rewrite Buffer_round_trip.
Qed.

Lemma snapshot_decodes_to_files_witness :
  ∃ filesystem,
    (Base64Filesystem "/work" (λ _, Fulfilled ["a.txt"; "b.txt"])
       (λ path, Fulfilled (Base64.encode_inline
                             (if String.eqb path "a.txt" then [x68; x69]
                              else [x79; x6f])))
       [1%nat; 0%nat] "*.txt" [] []).1
    = Fulfilled filesystem
    ∧ files filesystem = [("a.txt", "aGk="); ("b.txt", "eW8=")].
Proof.
  destruct (snapshot_decodes_to_files "/work"
              (λ _, Fulfilled ["a.txt"; "b.txt"])
              (λ path, Fulfilled (Base64.encode_inline
                                    (if String.eqb path "a.txt" then [x68; x69]
                                     else [x79; x6f])))
              [1%nat; 0%nat] "*.txt" [] ["a.txt"; "b.txt"]
              (λ path, if String.eqb path "a.txt" then [x68; x69]
                       else [x79; x6f]) [])
    as (filesystem & Hrun & _ & _).
  - reflexivity.
  - intros path _. reflexivity.
  - apply perm_swap.
  - exists filesystem. split; [exact Hrun|].
    cbn in Hrun. now injection Hrun as <-.
Defined.

(** ** The [backup] command *)

Lemma isSupportedType_supported (format : string) :
  isSupportedType (Js.Str format) = true →
  format = "json" ∨ format = "csv" ∨ format = "tsv".
Proof.
  unfold isSupportedType, supportedFormats. cbn [List.filter].
  destruct (String.eqb_spec format "json") as [->|Hj]; [auto|].
  destruct (String.eqb_spec format "csv") as [->|Hc]; [auto|].
  destruct (String.eqb_spec format "tsv") as [->|Ht]; [auto|].
  discriminate.
Qed.

Section BackupRuns.

Variable cwd : string.
Variable glob : string → promise (list string).
Variable readFile : string → promise string.
Variable completion : list nat.
Variable resolve : string → string.
Variable writeFile : string → option string → promise unit.
Variable inspect : Js.value → string.
Variable assertion : Js.value.

(** X12. A pattern or an output path that is not a string, or a format
    that is not supported, makes the handler throw the assertion error
    before anything else happens: nothing is printed, no file is read and
    none is written. *)
Theorem backup_refuses_bad_arguments
    (argv_pattern argv_outFile argv_format : Js.value) (world : World) :
  (¬ ∃ s, argv_pattern = Js.Str s) ∨ (¬ ∃ s, argv_outFile = Js.Str s)
  ∨ isSupportedType argv_format = false →
  backup cwd glob readFile completion resolve writeFile inspect assertion
         argv_pattern argv_outFile argv_format world
  = (Threw assertion, world).
Proof.
  intros Hbad. unfold backup, assertIsString, assert, proc_throw,
    mbind, Proc_bind, mret, Proc_ret.
  destruct argv_pattern as [|pattern| |]; try reflexivity.
  destruct argv_outFile as [|outFile| |]; try reflexivity.
  destruct (isSupportedType argv_format) eqn:Hformat; [|reflexivity].
  destruct Hbad as [Hbad|[Hbad|Hbad]];
    [destruct Hbad; eauto | destruct Hbad; eauto | discriminate].
Qed.

(** X13. When [Base64Filesystem] is rejected, for a failed expansion or a
    failed read, the handler prints [encountered an error during backup]
    and the error, exits with status 1, and writes no file. *)
Theorem backup_exits_1_when_snapshot_fails
    (pattern outFile format : string) (reason : Js.value) (world : World) :
  isSupportedType (Js.Str format) = true →
  (∀ console,
     (Base64Filesystem cwd glob readFile completion pattern [] console).1
     = Rejected reason) →
  ∃ console,
    backup cwd glob readFile completion resolve writeFile inspect assertion
           (Js.Str pattern) (Js.Str outFile) (Js.Str format) world
    = (Exited 1,
       {| stdio := console ++ ["encountered an error during backup";
                               inspect reason];
          disk := disk world |}).
Proof.
  intros Hformat Hfail. unfold backup.
  unfold assertIsString, assert, console_line, proc_catch, await_async,
    process_exit, write_file, mbind, Proc_bind, mret, Proc_ret.
  rewrite Hformat. cbn [stdio disk Js.ToString].
  destruct (endsWith outFile ("." +:+ format)); cbn [negb stdio disk].
  all: match goal with
       | |- context [Base64Filesystem ?a ?b ?c ?d ?e ?f ?g] =>
           pose proof (Hfail g) as Hrun;
           destruct (Base64Filesystem a b c d e f g) as [settled console']
       end.
  all: cbn [fst] in Hrun; subst settled; cbn [stdio disk].
  all: exists console'; now rewrite <- app_assoc.
Qed.

(** X14. A run that succeeds, from end to end.  When the expansion is
    fulfilled, every matched file is read, each read settles once and the
    write is fulfilled, the handler returns normally; the one file written
    is the resolved output path, holding the view selected by the format;
    the console shows the start line, the warning exactly when the output
    path does not end with a dot and the format, one [encoded] line per
    read in the order of completion, and the three closing lines.  The
    count printed is that of the properties of the snapshot object, which
    is 5 whatever the number of files. *)
Theorem backup_success
    (pattern outFile format : string) (fileGlob : list string)
    (content : string → string) (world : World) :
  isSupportedType (Js.Str format) = true →
  glob pattern = Fulfilled fileGlob →
  (∀ path, path ∈ fileGlob → readFile path = Fulfilled (content path)) →
  completion ≡ₚ seq 0 (length fileGlob) →
  writeFile (resolve outFile)
            (select_content format
               (mkFileSystem (map (λ path, (path, content path)) fileGlob)))
  = Fulfilled () →
  backup cwd glob readFile completion resolve writeFile inspect assertion
         (Js.Str pattern) (Js.Str outFile) (Js.Str format) world
  = (Done (),
     {| stdio :=
          stdio world
            ++ ["backing up all files in '" +:+ cwd +:+ "' matching '"
                  +:+ pattern +:+ "' to path '" +:+ outFile
                  +:+ "' in format '" +:+ format +:+ "'..."]
            ++ (if endsWith outFile ("." +:+ format) then []
                else ["warning: the chosen --out-file '" +:+ outFile
                        +:+ "' extension does not match the chosen --format '"
                        +:+ format +:+ "'"])
            ++ ["Finding and encoding files matching the pattern "
                  +:+ pattern +:+ " in directory " +:+ cwd]
            ++ map (λ i, "encoded: " +:+ nth i fileGlob "") completion
            ++ ["Found and encoded 5 file(s)";
                "Beginning file write to " +:+ resolve outFile;
                "Successfully wrote backup to " +:+ resolve outFile];
        disk :=
          disk world
            ++ [(resolve outFile,
                 select_content format
                   (mkFileSystem
                      (map (λ path, (path, content path)) fileGlob)))] |})
  ∧ select_content format
      (mkFileSystem (map (λ path, (path, content path)) fileGlob))
    ≠ None.
Proof.
  intros Hformat Hglob Hreads Hperm Hwrite. split.
  - unfold backup.
    unfold assertIsString, assert, console_line, proc_catch, await_async,
      write_file, mbind, Proc_bind, mret, Proc_ret.
    rewrite Hformat. cbn [stdio disk Js.ToString].
    destruct (endsWith outFile ("." +:+ format)); cbn [negb stdio disk].
    all: rewrite (Base64Filesystem_run cwd glob readFile completion pattern []
                    fileGlob content _ Hglob Hreads Hperm).
    all: change (apply_filters [] fileGlob) with fileGlob.
    all: cbn [stdio disk]; rewrite Hwrite; cbn [stdio disk].
    all: f_equal; f_equal; rewrite <- !app_assoc; reflexivity.
  - apply isSupportedType_supported in Hformat.
    unfold select_content.
    destruct Hformat as [->|[->| ->]]; discriminate.
Qed.

(** X15. When the snapshot is built and the write is rejected, the handler
    prints the write error line, then [encountered an error during backup]
    and the wrapped reason, exits with status 1, and the disk is as it
    was. *)
Theorem backup_exits_1_when_write_fails
    (pattern outFile format : string) (filesystem : FileSystem)
    (reason : Js.value) (world : World) :
  isSupportedType (Js.Str format) = true →
  (∀ console,
     (Base64Filesystem cwd glob readFile completion pattern [] console).1
     = Fulfilled filesystem) →
  writeFile (resolve outFile) (select_content format filesystem)
  = Rejected reason →
  ∃ console,
    backup cwd glob readFile completion resolve writeFile inspect assertion
           (Js.Str pattern) (Js.Str outFile) (Js.Str format) world
    = (Exited 1,
       {| stdio :=
            console
              ++ ["Found and encoded 5 file(s)";
                  "Beginning file write to " +:+ resolve outFile;
                  "error occurred while attempting to write file to "
                    +:+ resolve outFile;
                  "encountered an error during backup";
                  inspect (wrapError reason)];
          disk := disk world |}).
Proof.
  intros Hformat Hsnapshot Hwrite. unfold backup.
  unfold assertIsString, assert, console_line, proc_catch, await_async,
    process_exit, proc_throw, write_file, mbind, Proc_bind, mret, Proc_ret.
  rewrite Hformat. cbn [stdio disk Js.ToString].
  destruct (endsWith outFile ("." +:+ format)); cbn [negb stdio disk].
  all: match goal with
       | |- context [Base64Filesystem ?a ?b ?c ?d ?e ?f ?g] =>
           pose proof (Hsnapshot g) as Hrun;
           destruct (Base64Filesystem a b c d e f g) as [settled console']
       end.
  all: cbn [fst] in Hrun; subst settled; cbn [stdio disk].
  all: rewrite Hwrite; cbn [stdio disk].
  all: exists console'; f_equal; f_equal; rewrite <- !app_assoc; reflexivity.
Qed.

End BackupRuns.

Lemma backup_refuses_bad_arguments_witness :
  backup "/work" (λ _, Fulfilled ["a.txt"]) (λ _, Fulfilled "aGk=") [0%nat]
         (String.append "/work/") (λ _ _, Fulfilled ()) Js.ToString
         (Js.ErrorObject "AssertionError" "")
         (Js.Str "*.txt") (Js.Str "backup.xml") (Js.Str "xml") (mkWorld [] [])
  = (Threw (Js.ErrorObject "AssertionError" ""), mkWorld [] []).
Proof.
  apply backup_refuses_bad_arguments. right. right. reflexivity.
Defined.

Lemma backup_exits_1_when_snapshot_fails_witness :
  ∃ console,
    backup "/work" (λ _, Rejected (Js.Str "EACCES")) (λ _, Fulfilled "aGk=")
           [0%nat] (String.append "/work/") (λ _ _, Fulfilled ()) Js.ToString
           (Js.ErrorObject "AssertionError" "")
           (Js.Str "*.txt") (Js.Str "backup.json") (Js.Str "json")
           (mkWorld [] [])
    = (Exited 1,
       {| stdio := console
            ++ ["encountered an error during backup";
                Js.ToString
                  (Js.ErrorObject "ReferenceError"
                     "Cannot access 'fileGlob' before initialization")];
          disk := [] |}).
Proof.
  apply (backup_exits_1_when_snapshot_fails "/work"
           (λ _, Rejected (Js.Str "EACCES")) (λ _, Fulfilled "aGk=")
           [0%nat] (String.append "/work/") (λ _ _, Fulfilled ()) Js.ToString
           (Js.ErrorObject "AssertionError" "")
           "*.txt" "backup.json" "json" _ (mkWorld [] [])).
  - reflexivity.
  - intros console. reflexivity.
Defined.

Lemma backup_success_witness :
  ∃ world,
    backup "/work" (λ _, Fulfilled ["a.txt"; "b.txt"])
           (λ path, Fulfilled (if String.eqb path "a.txt" then "aGk="
                               else "eW8="))
           [1%nat; 0%nat] (String.append "/work/") (λ _ _, Fulfilled ())
           Js.ToString (Js.ErrorObject "AssertionError" "")
           (Js.Str "*.txt") (Js.Str "backup.json") (Js.Str "csv")
           (mkWorld [] [])
    = (Done (), world)
    ∧ disk world
      = [("/work/backup.json",
          Some ("filepath,content" +:+ LF +:+ "a.txt,aGk=" +:+ LF
                  +:+ "b.txt,eW8="))].
Proof.
  destruct (backup_success "/work" (λ _, Fulfilled ["a.txt"; "b.txt"])
              (λ path, Fulfilled (if String.eqb path "a.txt" then "aGk="
                                  else "eW8="))
              [1%nat; 0%nat] (String.append "/work/")
              (λ _ _, Fulfilled ()) Js.ToString
              (Js.ErrorObject "AssertionError" "")
              "*.txt" "backup.json" "csv" ["a.txt"; "b.txt"]
              (λ path, if String.eqb path "a.txt" then "aGk=" else "eW8=")
              (mkWorld [] [])) as [Hrun _].
  - reflexivity.
  - reflexivity.
  - intros path _. reflexivity.
  - apply perm_swap.
  - reflexivity.
  - eexists. split; [exact Hrun | reflexivity].
Defined.

Lemma backup_exits_1_when_write_fails_witness :
  ∃ console,
    backup "/work" (λ _, Fulfilled ["a.txt"]) (λ _, Fulfilled "aGk=")
           [0%nat] (String.append "/work/")
           (λ _ _, Rejected (Js.Str "EACCES")) Js.ToString
           (Js.ErrorObject "AssertionError" "")
           (Js.Str "*.txt") (Js.Str "backup.tsv") (Js.Str "tsv")
           (mkWorld [] [])
    = (Exited 1,
       {| stdio :=
            console
              ++ ["Found and encoded 5 file(s)";
                  "Beginning file write to /work/backup.tsv";
                  "error occurred while attempting to write file to /work/backup.tsv";
                  "encountered an error during backup";
                  "Error: EACCES"];
          disk := [] |}).
Proof.
  apply (backup_exits_1_when_write_fails "/work" (λ _, Fulfilled ["a.txt"])
           (λ _, Fulfilled "aGk=") [0%nat] (String.append "/work/")
           (λ _ _, Rejected (Js.Str "EACCES")) Js.ToString
           (Js.ErrorObject "AssertionError" "")
           "*.txt" "backup.tsv" "tsv" (mkFileSystem [("a.txt", "aGk=")])
           (Js.Str "EACCES") (mkWorld [] [])).
  - reflexivity.
  - intros console. reflexivity.
  - reflexivity.
Defined.

(** ** [Base64Filesystem]: a read that never settles *)

Lemma bind_pending {A B} (m : Async A) (k : A → Async B)
    (console console' : list string) :
  m console = (Pending, console') → (m ≫= k) console = (Pending, console').
Proof. intros Hm. unfold mbind, Async_bind. now rewrite Hm. Qed.

Lemma catch_pending {A} (m : Async A) (handler : Js.value → Async A)
    (console console' : list string) :
  m console = (Pending, console') → catch m handler console = (Pending, console').
Proof. intros Hm. unfold catch. now rewrite Hm. Qed.

(** X16. There is no partial snapshot: when no read is rejected and one
    surviving path has a read that never settles, the run never settles
    either, however many other reads are fulfilled. *)
Theorem Base64Filesystem_waits_for_every_read
    (cwd : string) (glob : string → promise (list string))
    (readFile : string → promise string) (completion : list nat)
    (globPattern : string) (filters : list (string → bool))
    (fileGlob : list string) (k : nat) (console : list string) :
  glob globPattern = Fulfilled fileGlob →
  (∀ i path reason, i ∈ completion →
       apply_filters filters fileGlob !! i = Some path →
       readFile path ≠ Rejected reason) →
  (k < length (apply_filters filters fileGlob))%nat →
  k ∉ completion →
  (Base64Filesystem cwd glob readFile completion globPattern filters
                    console).1
  = Pending.
Proof.
  intros Hglob Hok Hk Hnever.
  set (filtered := apply_filters filters fileGlob) in *.
  destruct (settle_all_untouched readFile filtered completion Hok
              (replicate (length filtered) None) console)
    as (slots & console' & Hrun & Hlen & Hsame).
  assert (Hslot : slots !! k = Some None).
  { rewrite Hsame by exact Hnever. now apply lookup_replicate_2. }
  assert (Hnone : mapM id slots = None).
  { apply mapM_None, Exists_exists. exists None. split; [|reflexivity].
    eapply list_elem_of_lookup_2; eauto. }
  assert (Hall : Promise_all completion
                   (map (read_and_encode readFile) filtered) console
                 = (Pending, console')).
  { unfold Promise_all. rewrite length_map.
    rewrite (bind_fulfilled _ _ _ _ _ Hrun). now rewrite Hnone. }
  unfold Base64Filesystem.
  erewrite catch_pending; [reflexivity|].
  erewrite bind_fulfilled;
    [|apply catch_fulfilled; unfold await; rewrite Hglob; reflexivity].
  cbv zeta. fold filtered. apply bind_pending, catch_pending. exact Hall.
Qed.

Lemma Base64Filesystem_waits_for_every_read_witness :
  (Base64Filesystem "/work" (λ _, Fulfilled ["a.txt"; "b.txt"])
     (λ _, Fulfilled "aGk=") [0%nat] "*" [] []).1
  = Pending.
Proof.
  apply (Base64Filesystem_waits_for_every_read "/work"
           (λ _, Fulfilled ["a.txt"; "b.txt"]) (λ _, Fulfilled "aGk=")
           [0%nat] "*" [] ["a.txt"; "b.txt"] 1 []).
  - reflexivity.
  - intros i path reason _ _. discriminate.
  - cbn. lia.
  - intros Hin. apply list_elem_of_singleton in Hin. discriminate.
Defined.

(** ** The JSON view loses nothing *)

Lemma unquote_quote_char (a : ascii) (rest : string) :
  unquote_char (JSON.quote_char a +:+ rest) = Some (a, rest).
Proof.
  destruct a as [[] [] [] [] [] [] [] []]; reflexivity.
Qed.

Lemma quote_body_closed (s t rest rest' : string) :
  JSON.quote_body s +:+ DQ +:+ rest = JSON.quote_body t +:+ DQ +:+ rest' →
  s = t ∧ rest = rest'.
Proof.
  revert t. induction s as [|a s IH]; intros [|b t] Heq.
  - injection Heq as Heq. change (rest = rest') in Heq. auto.
  - cbn [JSON.quote_body] in Heq. rewrite append_assoc in Heq.
    apply (f_equal unquote_char) in Heq.
    rewrite unquote_quote_char in Heq. discriminate Heq.
  - cbn [JSON.quote_body] in Heq. rewrite append_assoc in Heq.
    apply (f_equal unquote_char) in Heq.
    rewrite unquote_quote_char in Heq. discriminate Heq.
  - cbn [JSON.quote_body] in Heq. rewrite !append_assoc in Heq.
    apply (f_equal unquote_char) in Heq.
    rewrite !unquote_quote_char in Heq. injection Heq as -> Heq.
    destruct (IH t Heq) as [-> ->]. auto.
Qed.

(** The text of one entry, followed by anything, gives the entry back. *)
Lemma row_closed (entry entry' : FileEntry) (rest rest' : string) :
  ("[" +:+ JSON.quote entry.1 +:+ "," +:+ JSON.quote entry.2 +:+ "]")
    +:+ rest
  = ("[" +:+ JSON.quote entry'.1 +:+ "," +:+ JSON.quote entry'.2 +:+ "]")
      +:+ rest' →
  entry = entry' ∧ rest = rest'.
Proof.
  destruct entry as [p c], entry' as [p' c']. cbn [fst snd].
  unfold JSON.quote. rewrite !append_assoc.
  change ("[" +:+ DQ +:+ ?x) with (String "[" (String dquote x)).
  intros Heq. injection Heq as Heq.
  apply quote_body_closed in Heq as [-> Heq].
  change ("," +:+ DQ +:+ ?x) with (String "," (String dquote x)) in Heq.
  injection Heq as Heq.
  apply quote_body_closed in Heq as [-> Heq].
  change ("]" +:+ ?x) with (String "]" x) in Heq.
  injection Heq as ->. auto.
Qed.

Lemma append_char_inj (a : ascii) (x y : string) :
  String a "" +:+ x = String a "" +:+ y → x = y.
Proof. intros [= H]. exact H. Qed.

(** Texts that give themselves back, put one after another behind commas
    and closed by a bracket, give the list back. *)
Lemma rows_closed {A} (row : A → string) :
  (∀ x x' rest rest', row x +:+ rest = row x' +:+ rest' → x = x' ∧ rest = rest') →
  ∀ l l' : list A,
    String.concat "" (map (λ y, "," +:+ y) (map row l)) +:+ "]"
    = String.concat "" (map (λ y, "," +:+ y) (map row l')) +:+ "]" →
    l = l'.
Proof.
  intros Hrow l. induction l as [|x l IH]; intros [|x' l'].
  - reflexivity.
  - cbn [map]. rewrite concat_empty_cons, !append_assoc. discriminate.
  - cbn [map]. rewrite concat_empty_cons, !append_assoc. discriminate.
  - cbn [map]. rewrite !concat_empty_cons, !append_assoc.
    intros Heq. apply append_char_inj in Heq.
    apply Hrow in Heq as [-> Heq]. now rewrite (IH _ Heq).
Qed.

(** X17. The JSON view loses nothing: two snapshots with the same
    [asJSON()] text hold the same entries, in the same order, duplicates
    included. *)
Theorem asJSON_injective (filesystem filesystem' : list FileEntry) :
  (asJSON filesystem).1 = (asJSON filesystem').1 → filesystem = filesystem'.
Proof.
  rewrite !asJSON_text. intros Heq. apply append_char_inj in Heq.
  destruct filesystem as [|entry filesystem],
           filesystem' as [|entry' filesystem'].
  - reflexivity.
  - cbn [map] in Heq. rewrite join_cons, !append_assoc in Heq.
    discriminate Heq.
  - cbn [map] in Heq. rewrite join_cons, !append_assoc in Heq.
    discriminate Heq.
  - cbn [map] in Heq. rewrite !join_cons in Heq.
    rewrite !(append_assoc _ (String.concat _ _)) in Heq.
    apply row_closed in Heq as [-> Heq].
    now rewrite (rows_closed _ row_closed _ _ Heq).
Qed.

Lemma asJSON_injective_witness :
  [("a,b", "eA==")] = map (λ entry : FileEntry, entry) [("a,b", "eA==")].
Proof.
  apply (asJSON_injective [("a,b", "eA==")]
           (map (λ entry : FileEntry, entry) [("a,b", "eA==")])).
  reflexivity.
Defined.

(** ** [Base64Filesystem]: what a fulfilled run holds *)

Lemma settle_one_read (readFile : string → promise string)
    (paths : list string) (slots slots' : list (option FileRead)) (i : nat)
    (console console' : list string) :
  slots_read readFile paths slots →
  settle_one (map (read_and_encode readFile) paths) slots i console
  = (Fulfilled slots', console') →
  slots_read readFile paths slots'.
Proof.
  intros [Hlen Hread] Hrun.
  destruct (paths !! i) as [path|] eqn:Hpath.
  - destruct (slots !! i) as [[r|]|] eqn:Hslot.
    + unfold settle_one in Hrun.
      change (map (read_and_encode readFile) paths)
        with (read_and_encode readFile <$> paths) in Hrun.
      rewrite list_lookup_fmap, Hpath, Hslot in Hrun.
      injection Hrun as <- _. now split.
    + rewrite (settle_one_lookup _ _ _ _ _ _ Hpath Hslot) in Hrun.
      destruct (readFile path) as [c|reason|] eqn:Hfile; [|discriminate|].
      * injection Hrun as <- _. split; [now rewrite length_insert|].
        intros k r Hk. destruct (decide (i = k)) as [<-|Hne].
        -- rewrite list_lookup_insert_eq in Hk
             by (apply lookup_lt_is_Some; eauto).
           injection Hk as <-. now split.
        -- rewrite list_lookup_insert_ne in Hk by exact Hne. eauto.
      * injection Hrun as <- _. now split.
    + unfold settle_one in Hrun.
      change (map (read_and_encode readFile) paths)
        with (read_and_encode readFile <$> paths) in Hrun.
      rewrite list_lookup_fmap, Hpath, Hslot in Hrun.
      injection Hrun as <- _. now split.
  - unfold settle_one in Hrun.
    change (map (read_and_encode readFile) paths)
      with (read_and_encode readFile <$> paths) in Hrun.
    rewrite list_lookup_fmap, Hpath in Hrun. cbn in Hrun.
    assert (Hsame : slots' = slots)
      by (destruct (slots !! i) as [[?|]|]; now injection Hrun as <- _).
    subst slots'. now split.
Qed.

Lemma settle_all_read (readFile : string → promise string)
    (paths : list string) (order : list nat) :
  ∀ (slots slots' : list (option FileRead)) (console console' : list string),
    slots_read readFile paths slots →
    settle_all (map (read_and_encode readFile) paths) order slots console
    = (Fulfilled slots', console') →
    slots_read readFile paths slots'.
Proof.
  induction order as [|i order IH]; intros slots slots' console console' Hinv.
  - cbn. now intros [= <- _].
  - cbn [settle_all]. unfold mbind, Async_bind.
    destruct (settle_one (map (read_and_encode readFile) paths) slots i console)
      as [[slots1|reason|] console1] eqn:Hone; [|discriminate|discriminate].
    apply IH. eapply settle_one_read; eauto.
Qed.

Lemma Promise_all_read (readFile : string → promise string)
    (paths : list string) (order : list nat) (values : list FileRead)
    (console console' : list string) :
  Promise_all order (map (read_and_encode readFile) paths) console
  = (Fulfilled values, console') →
  map filepath values = paths
  ∧ Forall (λ r, readFile (filepath r) = Fulfilled (contents r)) values.
Proof.
  unfold Promise_all. rewrite length_map. unfold mbind, Async_bind.
  destruct (settle_all _ order _ console)
    as [[slots|reason|] console1] eqn:Hrun; [|discriminate|discriminate].
  destruct (mapM id slots) as [values'|] eqn:Hall; [|discriminate].
  intros [= -> _].
  assert (Hinv : slots_read readFile paths slots).
  { eapply settle_all_read; [|exact Hrun].
    split; [apply length_replicate|].
    intros i r Hi. apply lookup_replicate in Hi as [Hi _]. discriminate. }
  destruct Hinv as [Hlen Hread].
  apply mapM_Some in Hall.
  assert (Hslots : ∀ i r, values !! i = Some r → slots !! i = Some (Some r)).
  { intros i r Hi.
    destruct (Forall2_lookup_r _ _ _ _ _ Hall Hi) as (slot & Hslot & Hid).
    cbn in Hid. now subst slot. }
  split.
  - apply list_eq. intros i.
    change (map filepath values) with (filepath <$> values).
    rewrite list_lookup_fmap.
    destruct (values !! i) as [r|] eqn:Hi.
    + cbn. symmetry. now apply (Hread i r), Hslots.
    + cbn. symmetry. apply lookup_ge_None. rewrite <- Hlen.
      rewrite (Forall2_length _ _ _ Hall). now apply lookup_ge_None.
  - apply Forall_forall. intros r Hin.
    apply list_elem_of_lookup in Hin as [i Hi].
    now apply (Hread i r), Hslots.
Qed.

(** X19. Whatever the world, a fulfilled run holds exactly the surviving
    paths: the expansion was fulfilled, the snapshot has one entry per
    path that passed the filters, in order, and the content of each entry
    is what the read of that path gave. *)
Theorem Base64Filesystem_fulfilled_is_complete
    (cwd : string) (glob : string → promise (list string))
    (readFile : string → promise string) (completion : list nat)
    (globPattern : string) (filters : list (string → bool))
    (filesystem : FileSystem) (console : list string) :
  (Base64Filesystem cwd glob readFile completion globPattern filters
                    console).1
  = Fulfilled filesystem →
  ∃ fileGlob,
    glob globPattern = Fulfilled fileGlob
    ∧ map fst (files filesystem) = apply_filters filters fileGlob
    ∧ Forall (λ entry : FileEntry, readFile entry.1 = Fulfilled entry.2)
             (files filesystem).
Proof.
  unfold Base64Filesystem, catch, await, mbind, Async_bind.
  destruct (glob globPattern) as [fileGlob|reason|] eqn:Hglob;
    [|discriminate|discriminate].
  cbv zeta.
  destruct (Promise_all completion _ console)
    as [[values|reason|] console'] eqn:Hall; [|discriminate|discriminate].
  cbn. intros [= <-]. exists fileGlob. split; [reflexivity|].
  apply Promise_all_read in Hall as [Hpaths Hreads]. cbn [files]. split.
  - rewrite map_map. exact Hpaths.
  - apply Forall_map. exact Hreads.
Qed.

Lemma Base64Filesystem_fulfilled_is_complete_witness :
  ∃ fileGlob,
    (λ _ : string, Fulfilled ["b.txt"; "a.txt"]) "*"
    = Fulfilled (A := list string) fileGlob
    ∧ map fst [("b.txt", "eW8="); ("a.txt", "aGk=")]
      = apply_filters [] fileGlob
    ∧ Forall (λ entry : FileEntry,
                Fulfilled (A := string)
                  (if String.eqb entry.1 "a.txt" then "aGk=" else "eW8=")
                = Fulfilled entry.2)
             [("b.txt", "eW8="); ("a.txt", "aGk=")].
Proof.
  apply (Base64Filesystem_fulfilled_is_complete "/work"
           (λ _, Fulfilled ["b.txt"; "a.txt"])
           (λ path, Fulfilled (if String.eqb path "a.txt" then "aGk="
                               else "eW8="))
           [1%nat; 0%nat] "*" []
           (mkFileSystem [("b.txt", "eW8="); ("a.txt", "aGk=")]) []).
  reflexivity.
Defined.

(** ** The [backup] command, in every world *)

Section BackupAlways.

Variable cwd : string.
Variable glob : string → promise (list string).
Variable readFile : string → promise string.
Variable completion : list nat.
Variable resolve : string → string.
Variable writeFile : string → option string → promise unit.
Variable inspect : Js.value → string.
Variable assertion : Js.value.

(** X18. Whatever the arguments and the world, the handler completes at
    most one write, at the resolved output path, and a run that completed
    it returns normally: no run completes a write and then fails, and a
    run that throws, exits or hangs has completed none. *)
Theorem backup_writes_at_most_once
    (argv_pattern argv_outFile argv_format : Js.value) (world : World) :
  disk (backup cwd glob readFile completion resolve writeFile inspect
               assertion argv_pattern argv_outFile argv_format world).2
  = disk world
  ∨ (backup cwd glob readFile completion resolve writeFile inspect
            assertion argv_pattern argv_outFile argv_format world).1
    = Done ()
    ∧ ∃ outFile content,
        argv_outFile = Js.Str outFile
        ∧ disk (backup cwd glob readFile completion resolve writeFile inspect
                       assertion argv_pattern argv_outFile argv_format
                       world).2
          = disk world ++ [(resolve outFile, content)].
Proof.
  unfold backup, assertIsString, assert, console_line, proc_catch,
    await_async, process_exit, proc_throw, write_file,
    mbind, Proc_bind, mret, Proc_ret.
  destruct argv_pattern as [|pattern| |]; try (left; reflexivity).
  destruct argv_outFile as [|outFile| |]; try (left; reflexivity).
  destruct (isSupportedType argv_format); [|left; reflexivity].
  cbn [stdio disk].
  destruct (endsWith outFile ("." +:+ Js.ToString argv_format));
    cbn [negb stdio disk].
  all: match goal with
       | |- context [Base64Filesystem ?a ?b ?c ?d ?e ?f ?g] =>
           destruct (Base64Filesystem a b c d e f g)
             as [[filesystem|reason|] console']
       end.
  all: cbn [stdio disk]; try (left; reflexivity).
  all: match goal with
       | |- context [writeFile ?p ?c] => destruct (writeFile p c)
       end.
  all: cbn [stdio disk fst snd]; try (left; reflexivity).
  all: right; split; [destruct a; reflexivity | eauto].
Qed.


End BackupAlways.
